(** * drand-oracle updater: a shallow embedding of [updater/cmd/main.go] and
    [updater/internal/service/metrics.go], with the properties stated about
    them.

    Conventions.
    - Go strings are [string] (sequences of bytes, one [ascii] per byte).
    - A Go [float64] is its IEEE-754 binary64 bit pattern, a [Z] in
      [0, 2^64) ([math.Float64bits]); this is also how a Prometheus gauge
      stores its value.
    - A Go function that can panic returns a [result]: [Ok v] or [Panic msg].
    - The process-wide Prometheus registry ([prometheus.DefaultRegisterer]) is
      an explicit [gmap] from metric name to collector that is threaded
      through every call touching it. *)

From Stdlib Require Import ZArith String Ascii Strings.Byte List Lia QArith DecimalString.
From Stdlib Require Import Qpower Qfield.
From Stdlib Require DecimalPos DecimalZ Qcanon.
From stdpp Require Import base option gmap strings list.
Import ListNotations.

Local Open Scope string_scope.
Local Open Scope Z_scope.
Local Open Scope list_scope.

(** ** Results of calls that may panic *)

Inductive result (A : Type) : Type :=
| Ok (a : A)
| Panic (msg : string).
Arguments Ok {A} a.
Arguments Panic {A} msg.

Definition rbind {A B} (r : result A) (k : A -> result B) : result B :=
  match r with
  | Ok a => k a
  | Panic msg => Panic msg
  end.

Definition rmap {A B} (f : A -> B) (r : result A) : result B :=
  match r with
  | Ok a => Ok (f a)
  | Panic msg => Panic msg
  end.

#[global] Instance result_fmap : FMap result := fun _ _ f r => rmap f r.
#[global] Instance result_ret : MRet result := fun _ a => Ok a.
#[global] Instance result_bind : MBind result := fun _ _ k r => rbind r k.

Definition returns_normally {A} (r : result A) : Prop :=
  match r with Ok _ => True | Panic _ => False end.

(** ** Byte strings, [strings.TrimPrefix], [encoding/hex] *)

Module GoStrings.

Fixpoint drop (n : nat) (s : string) : string :=
  match n, s with
  | O, _ => s
  | S n', String _ s' => drop n' s'
  | S _, EmptyString => EmptyString
  end.

(** [strings.HasPrefix(s, prefix)]. *)
Fixpoint HasPrefix (s prefix : string) {struct prefix} : bool :=
  match prefix with
  | EmptyString => true
  | String a prefix' =>
    match s with
    | EmptyString => false
    | String b s' => Ascii.eqb a b && HasPrefix s' prefix'
    end
  end.

(** [strings.TrimPrefix(s, prefix)]: [s] without the leading [prefix], or
    [s] itself when it does not start with [prefix]. *)
Definition TrimPrefix (s prefix : string) : string :=
  if HasPrefix s prefix then drop (String.length prefix) s else s.

(** A continuation byte of UTF-8. *)
Definition cont (b : Z) : bool := (128 <=? b) && (b <=? 191).

(** Well-formed UTF-8: no overlong forms, no surrogates, nothing above
    U+10FFFF. *)
Fixpoint valid_utf8 (bs : list Z) : bool :=
  match bs with
  | [] => true
  | b0 :: r0 =>
    if b0 <? 128 then valid_utf8 r0
    else if (194 <=? b0) && (b0 <=? 223) then
      match r0 with
      | b1 :: r1 => cont b1 && valid_utf8 r1
      | _ => false
      end
    else if (224 <=? b0) && (b0 <=? 239) then
      match r0 with
      | b1 :: b2 :: r2 =>
        let lo := if b0 =? 224 then 160 else 128 in
        let hi := if b0 =? 237 then 159 else 191 in
        (lo <=? b1) && (b1 <=? hi) && cont b2 && valid_utf8 r2
      | _ => false
      end
    else if (240 <=? b0) && (b0 <=? 244) then
      match r0 with
      | b1 :: b2 :: b3 :: r3 =>
        let lo := if b0 =? 240 then 144 else 128 in
        let hi := if b0 =? 244 then 143 else 191 in
        (lo <=? b1) && (b1 <=? hi) && cont b2 && cont b3 && valid_utf8 r3
      | _ => false
      end
    else false
  end.

Definition bytes_of (s : string) : list Z :=
  map (fun c => Z.of_N (N_of_ascii c)) (list_ascii_of_string s).

(** [utf8.ValidString]. *)
Definition ValidString (s : string) : bool := valid_utf8 (bytes_of s).

(** Strings of 7-bit characters. *)
Definition ascii7 (c : ascii) : Prop := (N_of_ascii c < 128)%N.

Fixpoint all_ascii7 (s : string) : Prop :=
  match s with
  | EmptyString => True
  | String c r => ascii7 c /\ all_ascii7 r
  end.

End GoStrings.

Module Hex.

Inductive error :=
| InvalidByteError (c : ascii)
| ErrLength.

(** [reverseHexTable]: the value of a hex digit, [None] where the table
    holds 0xff. *)
Definition fromHexChar (c : ascii) : option Z :=
  let n := Z.of_N (N_of_ascii c) in
  if (48 <=? n) && (n <=? 57) then Some (n - 48)
  else if (97 <=? n) && (n <=? 102) then Some (n - 97 + 10)
  else if (65 <=? n) && (n <=? 70) then Some (n - 65 + 10)
  else None.

(** [hex.Decode]: pairs of digits, left to right; an invalid character is
    reported before an odd length. *)
Definition mkbyte (v : Z) : byte := byte_of_ascii (ascii_of_N (Z.to_N v)).

Fixpoint Decode (s : string) : list byte + error :=
  match s with
  | EmptyString => inl []
  | String p EmptyString =>
    match fromHexChar p with
    | None => inr (InvalidByteError p)
    | Some _ => inr ErrLength
    end
  | String p (String q rest) =>
    match fromHexChar p with
    | None => inr (InvalidByteError p)
    | Some a =>
      match fromHexChar q with
      | None => inr (InvalidByteError q)
      | Some b =>
        match Decode rest with
        | inl bs => inl (mkbyte (Z.lor (Z.shiftl a 4) b) :: bs)
        | inr e => inr e
        end
      end
    end
  end.

Definition DecodeString (s : string) : list byte + error := Decode s.

Definition hextable (n : Z) : ascii :=
  ascii_of_N (Z.to_N (if n <? 10 then 48 + n else 97 + (n - 10))).

(** [hex.EncodeToString]: two lower-case digits per byte. *)
Fixpoint EncodeToString (bs : list byte) : string :=
  match bs with
  | [] => EmptyString
  | b :: r =>
    let v := Z.of_N (Byte.to_N b) in
    String (hextable (Z.shiftr v 4))
      (String (hextable (Z.land v 15)) (EncodeToString r))
  end.

Definition is_hex_digit (c : ascii) : bool :=
  match fromHexChar c with Some _ => true | None => false end.

Fixpoint is_hex_string (s : string) : bool :=
  match s with
  | EmptyString => true
  | String c r => is_hex_digit c && is_hex_string r
  end.

End Hex.

(** ** [crypto.HexToECDSA] (go-ethereum) *)

Module Crypto.

(** Order of the secp256k1 group. *)
Definition secp256k1N : Z :=
  0xFFFFFFFFFFFFFFFFFFFFFFFFFFFFFFFEBAAEDCE6AF48A03BBFD25E8CD0364141.

(** [new(big.Int).SetBytes(d)]: big-endian. *)
Definition SetBytes (d : list byte) : Z :=
  fold_left (fun acc b => acc * 256 + Z.of_N (Byte.to_N b)) d 0.

(** An [*ecdsa.PrivateKey] is determined by its scalar [D]; the public key
    is [ScalarBaseMult D]. *)
Record PrivateKey := { D : Z }.

Inductive error :=
| ErrInvalidHexChar (c : ascii)
| ErrInvalidHexData
| ErrInvalidLength
| ErrTooLarge
| ErrZero.

(** [toECDSA(d, strict = true)]. *)
Definition ToECDSA (d : list byte) : PrivateKey + error :=
  if negb (8 * Z.of_nat (List.length d) =? 256) then inr ErrInvalidLength
  else
    let k := SetBytes d in
    if secp256k1N <=? k then inr ErrTooLarge
    else if k <=? 0 then inr ErrZero
    else inl {| D := k |}.

Definition HexToECDSA (hexkey : string) : PrivateKey + error :=
  match Hex.DecodeString hexkey with
  | inr (Hex.InvalidByteError c) => inr (ErrInvalidHexChar c)
  | inr Hex.ErrLength => inr ErrInvalidHexData
  | inl b => ToECDSA b
  end.

End Crypto.

(** ** [float64] as bit patterns *)

Module F64.

Definition fbits : Z := 64.
Definition mbits : Z := 52.
Definition ebits : Z := fbits - mbits - 1.
Definition bias : Z := Z.shiftl 1 (ebits - 1) - 1.
Definition dmin : Z := 1 - bias - mbits.
Definition emin : Z := 1 - bias.
Definition emax : Z := bias.

Definition signbit (neg : bool) : Z := if neg then Z.shiftl 1 (fbits - 1) else 0.

(** The constants the sources use, as bit patterns. *)
Definition zero (neg : bool) : Z := signbit neg.
Definition one : Z := 0x3FF0000000000000.
Definition Inf (neg : bool) : Z := Z.lor (signbit neg) 0x7FF0000000000000.
Definition SmallestNonzeroFloat64 (neg : bool) : Z := Z.lor (signbit neg) 1.

(** The real number a bit pattern denotes; [None] for infinities and
    NaNs. *)
Definition to_Q (bits : Z) : option Q :=
  let s := Z.testbit bits 63 in
  let bexp := Z.land (Z.shiftr bits mbits) 2047 in
  let frac := Z.land bits (Z.ones mbits) in
  if bexp =? 2047 then None
  else
    let m := if bexp =? 0 then frac else frac + Z.shiftl 1 mbits in
    let e := (if bexp =? 0 then 1 else bexp) - bias - mbits in
    let v := (inject_Z m * Qpower 2 e)%Q in
    Some (Qred (if s then Qopp v else v)).

(** The float [bits] is 1.0 up to [tolerance]. *)
Definition near_one (bits : Z) (tolerance : Q) : Prop :=
  exists q, to_Q bits = Some q /\
            (q - 1 <= tolerance)%Q /\ (1 - q <= tolerance)%Q.

End F64.

(** ** [math/big.Float] at the default precision *)

Module Big.

Definition MaxExp : Z := 2147483647.
Definition MinExp : Z := -2147483648.

Inductive form := fzero | finite | inf.

(** A [big.Float] whose mantissa fits one 64-bit word, which is the case at
    every precision up to 64. For [finite] the value is
    (-1)^neg * 0.mant * 2^exp, that is mant * 2^(exp - 64), with the top
    bit of [mant] set. *)
Record Float := mkFloat {
  prec : Z;
  fform : form;
  neg : bool;
  mant : Z;
  exp : Z
}.

(** Number of bits of a positive integer. *)
Definition bitLen (n : Z) : Z := Z.log2 n + 1.

(** [Float.round] in mode [ToNearestEven]: the fraction 0.n * 2^e,
    [n > 0] of any length, rounded to [p <= 64] bits. The result is the
    new one-word mantissa and the new exponent. *)
Definition round (p : Z) (n : Z) (e : Z) : Z * Z :=
  let bits := bitLen n in
  if bits <=? p then (Z.shiftl n (64 - bits), e)
  else
    let r := bits - p - 1 in
    let rbit := Z.testbit n r in
    let sbit := negb (Z.land n (Z.ones r) =? 0) in
    let q := Z.shiftr n (r + 1) in
    let inc := rbit && (sbit || Z.odd q) in
    let q' := if inc then q + 1 else q in
    if q' =? Z.shiftl 1 p
    then (Z.shiftl 1 63, e + 1)
    else (Z.shiftl q' (64 - p), e).

(** [Float.Float64], for a non-nil receiver. *)
Definition Float64_of (x : Float) : Z :=
  match fform x with
  | finite =>
    let e := exp x - 1 in
    let pack (p : Z) : Z :=
      let '(rmant, rexp) := round p (mant x) (exp x) in
      let e := rexp - 1 in
      if (MaxExp <? rexp) || (F64.emax <? e) then F64.Inf (neg x)
      else
        let sign := F64.signbit (neg x) in
        if e <? F64.emin then
          let p := F64.mbits + 1 - F64.emin + e in
          let m := Z.shiftr rmant (F64.fbits - p) in
          Z.lor sign m
        else
          let bexp := Z.shiftl (e + F64.bias) F64.mbits in
          let m := Z.land (Z.shiftr rmant F64.ebits) (Z.ones F64.mbits) in
          Z.lor (Z.lor sign bexp) m in
    if e <? F64.emin then
      let p := F64.mbits + 1 - F64.emin + e in
      if (p <? 0) || ((p =? 0) && (Z.land (mant x) (Z.ones 63) =? 0))
      then F64.zero (neg x)
      else if p =? 0 then F64.SmallestNonzeroFloat64 (neg x)
      else pack p
    else pack (F64.mbits + 1)
  | fzero => F64.zero (neg x)
  | inf => F64.Inf (neg x)
  end.

(** [x.Float64()] through a pointer: a nil receiver is dereferenced at
    [x.form] and the call panics. *)
Definition Float64 (x : option Float) : result Z :=
  match x with
  | Some f => Ok (Float64_of f)
  | None => Panic "runtime error: invalid memory address or nil pointer dereference"
  end.

(** *** Scanning *)

Definition is_digit (c : ascii) : bool :=
  let n := Z.of_N (N_of_ascii c) in (48 <=? n) && (n <=? 57).

(** The longest prefix of decimal digits, as their value (most significant
    first, accumulated into [acc]), how many there are, and the rest. *)
Fixpoint scanDigits (s : string) (acc : Z) (count : nat) : Z * nat * string :=
  match s with
  | String c r =>
    if is_digit c
    then scanDigits r (acc * 10 + (Z.of_N (N_of_ascii c) - 48)) (S count)
    else (acc, count, s)
  | EmptyString => (acc, count, s)
  end.

Definition scanSign (s : string) : bool * string :=
  match s with
  | String "+" r => (false, r)
  | String "-" r => (true, r)
  | _ => (false, s)
  end.

(** What [SetString] does on a given string. [Returned (Some f)] is
    [(f, true)], [Returned None] is [(nil, false)]. [OutsideFragment] marks
    the strings that are not embedded here: those in which the scanner of
    [math/big] meets a radix prefix ([0b], [0o], [0x]), a digit separator
    [_], a radix point or an exponent. Every other string is covered: the
    decimal integers with an optional sign, the infinities, and all that
    is rejected for another reason. *)
Inductive scanned :=
| Returned (f : option Float)
| OutsideFragment.

Definition mem (c : ascii) (cs : string) : bool :=
  existsb (Ascii.eqb c) (list_ascii_of_string cs).

(** [Float.scan] followed by the end-of-input check of [Parse], for a
    receiver of precision 0 (so the result has precision 64). *)
Definition scan (s : string) : scanned :=
  match s with
  | EmptyString => Returned None
  | _ =>
    let '(sneg, r) := scanSign s in
    let '(n, count, rest) := scanDigits r 0 O in
    match rest with
    | String c _ =>
      if mem c "._" then OutsideFragment
      else if (0 <? Z.of_nat count) && mem c "eEpP" then OutsideFragment
      else if String.eqb (String.substring 0 count r) "0" && mem c "bBoOxX"
      then OutsideFragment
      else Returned None
    | EmptyString =>
      if (count =? 0)%nat then Returned None
      else if n =? 0 then Returned (Some (mkFloat 64 fzero sneg 0 0))
      else
        let exp2 := bitLen n in
        if (MinExp <=? exp2) && (exp2 <=? MaxExp) then
          let '(m, e) := round 64 n exp2 in
          if MaxExp <? e then Returned (Some (mkFloat 64 inf sneg 0 0))
          else Returned (Some (mkFloat 64 finite sneg m e))
        else Returned None
    end
  end.

Definition Parse (s : string) : scanned :=
  if String.eqb s "Inf" || String.eqb s "inf"
  then Returned (Some (mkFloat 0 inf false 0 0))
  else if String.eqb s "+Inf" || String.eqb s "+inf"
  then Returned (Some (mkFloat 0 inf false 0 0))
  else if String.eqb s "-Inf" || String.eqb s "-inf"
  then Returned (Some (mkFloat 0 inf true 0 0))
  else scan s.

(** [new(big.Float).SetString(s)]. *)
Definition SetString (s : string) : scanned := Parse s.

End Big.

(** ** Prometheus: vectors of gauges and counters in the default registry *)

Module Prom.

Inductive kind := Gauge | Counter.

(** A [GaugeVec] or [CounterVec]: its descriptor and its children, keyed by
    label values. A gauge child holds the bits of a [float64]
    ([valBits]); a counter child holds [valInt], the [uint64] that [Inc]
    advances. *)
Record Vec := mkVec {
  fqName : string;
  help : string;
  variableLabels : list string;
  vkind : kind;
  metrics : gmap (list string) Z
}.

(** [prometheus.DefaultRegisterer]: the collectors registered so far, by
    the identity of their descriptor. Without constant labels that
    identity is the metric name. *)
Abbreviation Registry := (gmap string Vec).

(** A [*GaugeVec] or [*CounterVec] held by the program points to the
    collector the registry holds: it is the key of that collector. *)
Abbreviation handle := string.

Definition set_metrics (v : Vec) (ms : gmap (list string) Z) : Vec :=
  mkVec (fqName v) (help v) (variableLabels v) (vkind v) ms.

(** [Registerer.MustRegister]: panics when a collector with the same
    descriptor is already registered. *)
Definition MustRegister (v : Vec) (reg : Registry) : result Registry :=
  match reg !! fqName v with
  | Some _ => Panic "duplicate metrics collector registration attempted"
  | None => Ok (<[fqName v := v]> reg)
  end.

(** [promauto.NewGaugeVec(prometheus.GaugeOpts{Name, Help}, labelNames)]. *)
Definition NewGaugeVec (name help : string) (labelNames : list string)
    (reg : Registry) : result (handle * Registry) :=
  reg' ← MustRegister (mkVec name help labelNames Gauge ∅) reg;
  Ok (name, reg').

(** [promauto.NewCounterVec(prometheus.CounterOpts{Name, Help}, labelNames)]. *)
Definition NewCounterVec (name help : string) (labelNames : list string)
    (reg : Registry) : result (handle * Registry) :=
  reg' ← MustRegister (mkVec name help labelNames Counter ∅) reg;
  Ok (name, reg').

Definition validateLabelValues (vals : list string) (expected : nat) : bool :=
  (List.length vals =? expected)%nat && forallb GoStrings.ValidString vals.

(** [vec.WithLabelValues(lvs...)]: panics on a wrong number of values or a
    value that is not UTF-8; otherwise finds the child, creating it at zero
    on first use. *)
Definition WithLabelValues (h : handle) (lvs : list string) (reg : Registry)
    : result Registry :=
  match reg !! h with
  | None => Panic "runtime error: invalid memory address or nil pointer dereference"
  | Some v =>
    if validateLabelValues lvs (List.length (variableLabels v)) then
      match metrics v !! lvs with
      | Some _ => Ok reg
      | None => Ok (<[h := set_metrics v (<[lvs := 0]> (metrics v))]> reg)
      end
    else Panic "inconsistent label cardinality or label value is not valid UTF-8"
  end.

Definition update_child (h : handle) (lvs : list string) (f : Z -> Z)
    (reg : Registry) : Registry :=
  match reg !! h with
  | Some v => <[h := set_metrics v (alter f lvs (metrics v))]> reg
  | None => reg
  end.

(** [vec.WithLabelValues(lvs...).Set(val)]. *)
Definition Set_ (h : handle) (lvs : list string) (val : Z) (reg : Registry)
    : result Registry :=
  reg' ← WithLabelValues h lvs reg;
  Ok (update_child h lvs (fun _ => val) reg').

(** [vec.WithLabelValues(lvs...).Inc()]. *)
Definition Inc (h : handle) (lvs : list string) (reg : Registry)
    : result Registry :=
  reg' ← WithLabelValues h lvs reg;
  Ok (update_child h lvs (fun n => (n + 1) mod 2 ^ 64) reg').

(** What a child holds, zero before it is first used. *)
Definition child (v : Vec) (lvs : list string) : Z :=
  default 0 (metrics v !! lvs).

(** What a scrape reads for one child. *)
Definition read (reg : Registry) (name : string) (lvs : list string) : option Z :=
  v ← reg !! name; metrics v !! lvs.

End Prom.

(** ** The libraries the metrics are labelled with *)

Module Chain.

(** [chain.Info] of drand, over the type of group elements. *)
Record Info (Point : Type) := mkInfo {
  PublicKey : Point;
  ID : string;
  Period : Z;
  Scheme : string;
  GenesisTime : Z;
  GenesisSeed : list byte
}.
Arguments mkInfo {Point}.
Arguments PublicKey {Point}.
Arguments ID {Point}.
Arguments Period {Point}.
Arguments Scheme {Point}.
Arguments GenesisTime {Point}.
Arguments GenesisSeed {Point}.

End Chain.

(** Functions of go-ethereum, kyber, drand and the Go library that the
    sources call and whose results only appear as label values. *)
Class Externals := {
  Address : Type;                       (* common.Address *)
  Address_Hex : Address -> string;      (* Address.Hex *)
  Point : Type;                         (* kyber.Point *)
  Point_String : Point -> string;       (* Point.String *)
  Duration_String : Z -> string;        (* time.Duration.String *)
  Info_Hash : Chain.Info Point -> list byte   (* chain.Info.Hash *)
}.

Module Fmt.
(** [fmt.Sprintf("%d", n)]. *)
Definition Sprintf_d (n : Z) : string := NilZero.string_of_int (Z.to_int n).
End Fmt.

Module Labels.
Definition labelChainHash := "chain_hash".
Definition labelChainID := "chain_id".
Definition labelOracleAddress := "oracle_address".
Definition labelUpdaterAddress := "updater_address".
Definition labelPublicKey := "public_key".
Definition labelID := "id".
Definition labelPeriod := "period".
Definition labelScheme := "scheme".
Definition labelGenesisTime := "genesis_time".
Definition labelGenesisSeed := "genesis_seed".
End Labels.

(** [Info.HashString]. *)
Definition HashString `{Externals} (i : Chain.Info Point) : string :=
  Hex.EncodeToString (Info_Hash i).

(** The label values [NewMetrics] gives the [drand_network_info] gauge, in
    the order of its label names. *)
Definition info_label_values `{Externals} (i : Chain.Info Point) : list string :=
  [HashString i;
   Point_String (Chain.PublicKey i);
   Duration_String (Chain.Period i);
   Chain.Scheme i;
   Fmt.Sprintf_d (Chain.GenesisTime i);
   Hex.EncodeToString (Chain.GenesisSeed i)].

(** The printed public key, the printed period and the scheme name are
    UTF-8. *)
Definition info_printable `{Externals} (i : Chain.Info Point) : bool :=
  GoStrings.ValidString (Point_String (Chain.PublicKey i)) &&
  GoStrings.ValidString (Duration_String (Chain.Period i)) &&
  GoStrings.ValidString (Chain.Scheme i).

(** The collectors [NewMetrics] registers, as they are in the registry when
    it returns. *)
Module Collectors.
Import Labels.

Definition round_network : Prom.Vec :=
  Prom.mkVec "drand_round_number_network"
    "Current round number from the Drand network"
    [labelChainHash] Prom.Gauge ∅.

Definition round_oracle : Prom.Vec :=
  Prom.mkVec "drand_round_number_oracle"
    "Current round number processed by the Oracle"
    [labelChainID; labelOracleAddress] Prom.Gauge ∅.

Definition success_total : Prom.Vec :=
  Prom.mkVec "drand_set_randomness_success_total"
    "Total number of successful SetRandomness transactions"
    [labelChainID; labelOracleAddress] Prom.Counter ∅.

Definition failure_total : Prom.Vec :=
  Prom.mkVec "drand_set_randomness_failure_total"
    "Total number of failed SetRandomness transactions"
    [labelChainID; labelOracleAddress] Prom.Counter ∅.

Definition network_info (children : gmap (list string) Z) : Prom.Vec :=
  Prom.mkVec "drand_network_info"
    "Static information about the Drand network configuration"
    [labelChainHash; labelPublicKey; labelPeriod; labelScheme;
     labelGenesisTime; labelGenesisSeed] Prom.Gauge children.

Definition updater_balance : Prom.Vec :=
  Prom.mkVec "drand_updater_balance_wei"
    "Current balance of the updater address in wei"
    [labelChainID; labelOracleAddress; labelUpdaterAddress] Prom.Gauge ∅.

(** The registry after the five collectors of both versions are
    registered and the info gauge is set. *)
Definition registered `{Externals} (drandInfo : Chain.Info Point)
    (reg : Prom.Registry) : Prom.Registry :=
  <["drand_network_info" :=
      network_info {[ info_label_values drandInfo := F64.one ]}]>
  (<["drand_set_randomness_failure_total" := failure_total]>
  (<["drand_set_randomness_success_total" := success_total]>
  (<["drand_round_number_oracle" := round_oracle]>
  (<["drand_round_number_network" := round_network]> reg)))).
End Collectors.

(** The calls of the Updater into the metrics that both versions of
    [metrics.go] have. *)
Inductive op :=
| OpSetDrandRound (round : Z)
| OpSetOracleRound (round : Z)
| OpIncSetRandomnessSuccess
| OpIncSetRandomnessFailure.

Fixpoint exec_ops (apply : op -> Prom.Registry -> result Prom.Registry)
    (ops : list op) (reg : Prom.Registry) : result Prom.Registry :=
  match ops with
  | [] => Ok reg
  | o :: ops' => reg' ← apply o reg; exec_ops apply ops' reg'
  end.

(** ** [service.Metrics], the earlier version of [metrics.go] *)

Module V1.
Section WithExternals.
Context `{Externals}.
Import Labels.

Record Metrics := mkMetrics {
  drandRoundTotal : Prom.handle;
  oracleRoundTotal : Prom.handle;
  setRandomnessSuccessTotal : Prom.handle;
  setRandomnessFailureTotal : Prom.handle;
  drandInfo : Prom.handle;
  chainHash : string;
  chainID : Z;
  oracleAddress : Address
}.

Definition NewMetrics (chainID : Z) (oracleAddress : Address)
    (drandInfo : Chain.Info Point) (reg : Prom.Registry)
    : result (Metrics * Prom.Registry) :=
  let m_chainHash := HashString drandInfo in
  '(h_drandRoundTotal, reg) ←
    Prom.NewGaugeVec "drand_round_number_network"
      "Current round number from the Drand network"
      [labelChainHash] reg;
  '(h_oracleRoundTotal, reg) ←
    Prom.NewGaugeVec "drand_round_number_oracle"
      "Current round number processed by the Oracle"
      [labelChainID; labelOracleAddress] reg;
  '(h_setRandomnessSuccessTotal, reg) ←
    Prom.NewCounterVec "drand_set_randomness_success_total"
      "Total number of successful SetRandomness transactions"
      [labelChainID; labelOracleAddress] reg;
  '(h_setRandomnessFailureTotal, reg) ←
    Prom.NewCounterVec "drand_set_randomness_failure_total"
      "Total number of failed SetRandomness transactions"
      [labelChainID; labelOracleAddress] reg;
  '(h_drandInfo, reg) ←
    Prom.NewGaugeVec "drand_network_info"
      "Static information about the Drand network configuration"
      [labelChainHash; labelPublicKey; labelPeriod; labelScheme;
       labelGenesisTime; labelGenesisSeed] reg;
  reg ← Prom.Set_ h_drandInfo
    [m_chainHash;
     Point_String (Chain.PublicKey drandInfo);
     Duration_String (Chain.Period drandInfo);
     Chain.Scheme drandInfo;
     Fmt.Sprintf_d (Chain.GenesisTime drandInfo);
     Hex.EncodeToString (Chain.GenesisSeed drandInfo)]
    F64.one reg;
  Ok (mkMetrics h_drandRoundTotal h_oracleRoundTotal
        h_setRandomnessSuccessTotal h_setRandomnessFailureTotal
        h_drandInfo m_chainHash chainID oracleAddress, reg).

Definition SetDrandRound (m : Metrics) (round : Z) (reg : Prom.Registry)
    : result Prom.Registry :=
  Prom.Set_ (drandRoundTotal m) [chainHash m] round reg.

Definition SetOracleRound (m : Metrics) (round : Z) (reg : Prom.Registry)
    : result Prom.Registry :=
  Prom.Set_ (oracleRoundTotal m)
    [Fmt.Sprintf_d (chainID m); Address_Hex (oracleAddress m)] round reg.

Definition IncSetRandomnessSuccess (m : Metrics) (reg : Prom.Registry)
    : result Prom.Registry :=
  Prom.Inc (setRandomnessSuccessTotal m)
    [Fmt.Sprintf_d (chainID m); Address_Hex (oracleAddress m)] reg.

Definition IncSetRandomnessFailure (m : Metrics) (reg : Prom.Registry)
    : result Prom.Registry :=
  Prom.Inc (setRandomnessFailureTotal m)
    [Fmt.Sprintf_d (chainID m); Address_Hex (oracleAddress m)] reg.

Definition metric_names : list string :=
  ["drand_round_number_network"; "drand_round_number_oracle";
   "drand_set_randomness_success_total"; "drand_set_randomness_failure_total";
   "drand_network_info"].

Definition apply (m : Metrics) (o : op) (reg : Prom.Registry)
    : result Prom.Registry :=
  match o with
  | OpSetDrandRound round => SetDrandRound m round reg
  | OpSetOracleRound round => SetOracleRound m round reg
  | OpIncSetRandomnessSuccess => IncSetRandomnessSuccess m reg
  | OpIncSetRandomnessFailure => IncSetRandomnessFailure m reg
  end.

(** The metrics [NewMetrics] returns: every handle is the name it was
    registered under. *)
Definition metrics_of (chainID : Z) (oracleAddress : Address)
    (drandInfo : Chain.Info Point) : Metrics :=
  mkMetrics "drand_round_number_network" "drand_round_number_oracle"
    "drand_set_randomness_success_total" "drand_set_randomness_failure_total"
    "drand_network_info" (HashString drandInfo) chainID oracleAddress.

(** A process: [NewMetrics] once, then the calls [ops] in order. *)
Definition session (chainID : Z) (oracleAddress : Address)
    (drandInfo : Chain.Info Point) (ops : list op) (reg : Prom.Registry)
    : result Prom.Registry :=
  '(m, reg1) ← NewMetrics chainID oracleAddress drandInfo reg;
  exec_ops (apply m) ops reg1.

End WithExternals.
End V1.

(** ** [service.Metrics], the later version, with the balance gauge *)

Module V2.
Section WithExternals.
Context `{Externals}.
Import Labels.

Record Metrics := mkMetrics {
  drandRoundTotal : Prom.handle;
  oracleRoundTotal : Prom.handle;
  setRandomnessSuccessTotal : Prom.handle;
  setRandomnessFailureTotal : Prom.handle;
  updaterBalance : Prom.handle;
  drandInfo : Prom.handle;
  chainHash : string;
  chainID : Z;
  oracleAddress : Address;
  updaterAddress : Address
}.

Definition NewMetrics (chainID : Z) (oracleAddress updaterAddress : Address)
    (drandInfo : Chain.Info Point) (reg : Prom.Registry)
    : result (Metrics * Prom.Registry) :=
  let m_chainHash := HashString drandInfo in
  '(h_drandRoundTotal, reg) ←
    Prom.NewGaugeVec "drand_round_number_network"
      "Current round number from the Drand network"
      [labelChainHash] reg;
  '(h_oracleRoundTotal, reg) ←
    Prom.NewGaugeVec "drand_round_number_oracle"
      "Current round number processed by the Oracle"
      [labelChainID; labelOracleAddress] reg;
  '(h_setRandomnessSuccessTotal, reg) ←
    Prom.NewCounterVec "drand_set_randomness_success_total"
      "Total number of successful SetRandomness transactions"
      [labelChainID; labelOracleAddress] reg;
  '(h_setRandomnessFailureTotal, reg) ←
    Prom.NewCounterVec "drand_set_randomness_failure_total"
      "Total number of failed SetRandomness transactions"
      [labelChainID; labelOracleAddress] reg;
  '(h_drandInfo, reg) ←
    Prom.NewGaugeVec "drand_network_info"
      "Static information about the Drand network configuration"
      [labelChainHash; labelPublicKey; labelPeriod; labelScheme;
       labelGenesisTime; labelGenesisSeed] reg;
  reg ← Prom.Set_ h_drandInfo
    [m_chainHash;
     Point_String (Chain.PublicKey drandInfo);
     Duration_String (Chain.Period drandInfo);
     Chain.Scheme drandInfo;
     Fmt.Sprintf_d (Chain.GenesisTime drandInfo);
     Hex.EncodeToString (Chain.GenesisSeed drandInfo)]
    F64.one reg;
  '(h_updaterBalance, reg) ←
    Prom.NewGaugeVec "drand_updater_balance_wei"
      "Current balance of the updater address in wei"
      [labelChainID; labelOracleAddress; labelUpdaterAddress] reg;
  Ok (mkMetrics h_drandRoundTotal h_oracleRoundTotal
        h_setRandomnessSuccessTotal h_setRandomnessFailureTotal
        h_updaterBalance h_drandInfo m_chainHash chainID oracleAddress
        updaterAddress, reg).

Definition SetDrandRound (m : Metrics) (round : Z) (reg : Prom.Registry)
    : result Prom.Registry :=
  Prom.Set_ (drandRoundTotal m) [chainHash m] round reg.

Definition SetOracleRound (m : Metrics) (round : Z) (reg : Prom.Registry)
    : result Prom.Registry :=
  Prom.Set_ (oracleRoundTotal m)
    [Fmt.Sprintf_d (chainID m); Address_Hex (oracleAddress m)] round reg.

Definition IncSetRandomnessSuccess (m : Metrics) (reg : Prom.Registry)
    : result Prom.Registry :=
  Prom.Inc (setRandomnessSuccessTotal m)
    [Fmt.Sprintf_d (chainID m); Address_Hex (oracleAddress m)] reg.

Definition IncSetRandomnessFailure (m : Metrics) (reg : Prom.Registry)
    : result Prom.Registry :=
  Prom.Inc (setRandomnessFailureTotal m)
    [Fmt.Sprintf_d (chainID m); Address_Hex (oracleAddress m)] reg.

(** [SetUpdaterBalance]: both second results, the [ok] of [SetString] and
    the accuracy of [Float64], are discarded. [None] when [wei] is a
    numeral outside the embedded fragment of [math/big]. *)
Definition SetUpdaterBalance (m : Metrics) (wei : string) (reg : Prom.Registry)
    : option (result Prom.Registry) :=
  match Big.SetString wei with
  | Big.OutsideFragment => None
  | Big.Returned balance =>
    Some (b ← Big.Float64 balance;
          Prom.Set_ (updaterBalance m)
            [Fmt.Sprintf_d (chainID m);
             Address_Hex (oracleAddress m);
             Address_Hex (updaterAddress m)] b reg)
  end.

Definition metric_names : list string :=
  ["drand_round_number_network"; "drand_round_number_oracle";
   "drand_set_randomness_success_total"; "drand_set_randomness_failure_total";
   "drand_network_info"; "drand_updater_balance_wei"].

Definition apply (m : Metrics) (o : op) (reg : Prom.Registry)
    : result Prom.Registry :=
  match o with
  | OpSetDrandRound round => SetDrandRound m round reg
  | OpSetOracleRound round => SetOracleRound m round reg
  | OpIncSetRandomnessSuccess => IncSetRandomnessSuccess m reg
  | OpIncSetRandomnessFailure => IncSetRandomnessFailure m reg
  end.

Definition session (chainID : Z) (oracleAddress updaterAddress : Address)
    (drandInfo : Chain.Info Point) (ops : list op) (reg : Prom.Registry)
    : result Prom.Registry :=
  '(m, reg1) ← NewMetrics chainID oracleAddress updaterAddress drandInfo reg;
  exec_ops (apply m) ops reg1.

(** The metrics of the later version that extend those of the earlier
    one by the balance gauge and the updater address. *)
Definition of_v1 (m : V1.Metrics) (updaterAddress : Address) : Metrics :=
  mkMetrics (V1.drandRoundTotal m) (V1.oracleRoundTotal m)
    (V1.setRandomnessSuccessTotal m) (V1.setRandomnessFailureTotal m)
    "drand_updater_balance_wei" (V1.drandInfo m)
    (V1.chainHash m) (V1.chainID m) (V1.oracleAddress m) updaterAddress.

(** The metrics [NewMetrics] returns: every handle is the name it was
    registered under. *)
Definition metrics_of (chainID : Z) (oracleAddress updaterAddress : Address)
    (drandInfo : Chain.Info Point) : Metrics :=
  mkMetrics "drand_round_number_network" "drand_round_number_oracle"
    "drand_set_randomness_success_total" "drand_set_randomness_failure_total"
    "drand_updater_balance_wei" "drand_network_info"
    (HashString drandInfo) chainID oracleAddress updaterAddress.

End WithExternals.
End V2.

(** The collector [name] is registered with [n] label names. *)
Definition label_count (reg : Prom.Registry) (name : string) (n : nat) : Prop :=
  exists v, reg !! name = Some v /\ List.length (Prom.variableLabels v) = n.

(** The four collectors the Updater writes to and the balance gauge are
    registered, each with its number of labels. *)
Definition well_registered (reg : Prom.Registry) : Prop :=
  label_count reg "drand_round_number_network" 1 /\
  label_count reg "drand_round_number_oracle" 2 /\
  label_count reg "drand_set_randomness_success_total" 2 /\
  label_count reg "drand_set_randomness_failure_total" 2 /\
  label_count reg "drand_updater_balance_wei" 3.

(** None of [names] is registered. *)
Definition fresh (reg : Prom.Registry) (names : list string) : Prop :=
  Forall (fun n => reg !! n = None) names.

(** ** [cmd/main.go] *)

Module Main.

Definition error := string.

(** Modelled from the spec: the struct [config.Config] (package [config] is
    not among the sources), with the fields [main] reads; they are the
    configuration keys of section 6. *)
Record Config := mkConfig {
  ChainHash : string;
  DrandURLs : list string;
  RPC : string;
  DrandOracleAddress : string;
  ChainID : Z;
  SignerPrivateKey : string;
  SenderPrivateKey : string;
  SetRandomnessGasLimit : Z;
  GenesisRound : Z;
  HttpPort : Z;
  MetricsPort : Z
}.

(** The three functions handed to [errGroup.Go]. *)
Inductive task := TUpdater | THealth | TMetrics.

(** *** Start-up *)

(** How [main] reads [SIGNER_PRIVATE_KEY] and [SENDER_PRIVATE_KEY]:
    [crypto.HexToECDSA(strings.TrimPrefix(key, "0x"))]. *)
Definition parseKey (key : string) : Crypto.PrivateKey + Crypto.error :=
  Crypto.HexToECDSA (GoStrings.TrimPrefix key "0x").

Section Startup.
Context `{Externals}.

(** What the calls of [main] into other packages answer: for each, the
    error it returns, if any. The values they construct are only passed
    on, so they are not represented. *)
Record World := mkWorld {
  envconfig_Process : Config + error;
  client_New : list string -> list byte -> option error;
  ethclient_Dial : string -> option error;
  common_HexToAddress : string -> Address;
  binding_NewBinding : Address -> option error;
  service_NewUpdater :
    Z -> Z -> Address -> Z -> Crypto.PrivateKey -> Crypto.PrivateKey ->
    option error
}.

Inductive event :=
| Info (msg : string)
| FatalExit (msg : string)   (* log.Fatal()...Msg(msg): logs, then os.Exit(1) *)
| Go (t : task).             (* errGroup.Go(...) *)

(** [main] up to [errGroup.Wait()]: the log lines written and the
    goroutines launched, in program order. *)
Definition main (w : World) : list event :=
  match envconfig_Process w with
  | inr _ => [FatalExit "Failed to process environment variables"]
  | inl cfg =>
  match Hex.DecodeString (ChainHash cfg) with
  | inr _ => [FatalExit "Failed to decode chain hash"]
  | inl chainHash =>
  Info "Initializing drand client..." ::
  match client_New w (DrandURLs cfg) chainHash with
  | Some _ => [FatalExit "error creating client"]
  | None =>
  Info "Initializing RPC client..." ::
  match ethclient_Dial w (RPC cfg) with
  | Some _ => [FatalExit "error creating rpc client"]
  | None =>
  let contractAddress := common_HexToAddress w (DrandOracleAddress cfg) in
  Info "Initializing DrandOracle contract binding..." ::
  match binding_NewBinding w contractAddress with
  | Some _ => [FatalExit "error creating binding"]
  | None =>
  Info "Initializing signer..." ::
  match parseKey (SignerPrivateKey cfg) with
  | inr _ => [FatalExit "error parsing private key"]
  | inl signerPrivateKey =>
  Info "Signer initialized" ::
  Info "Initializing sender..." ::
  match parseKey (SenderPrivateKey cfg) with
  | inr _ => [FatalExit "error parsing private key"]
  | inl senderPrivateKey =>
  Info "Sender initialized" ::
  Info "Initializing updater service..." ::
  match service_NewUpdater w (SetRandomnessGasLimit cfg) (ChainID cfg)
          contractAddress (GenesisRound cfg)
          signerPrivateKey senderPrivateKey with
  | Some _ => [FatalExit "error creating updater"]
  | None =>
  [Info "Starting services..."; Go TUpdater; Go THealth; Go TMetrics]
  end end end end end end end end.

Definition fatal (tr : list event) : Prop :=
  exists msg, last tr = Some (FatalExit msg).

Definition is_err {A B} (r : A + B) : bool :=
  match r with inr _ => true | inl _ => false end.

(** The configuration is malformed or a key is invalid: the classes of
    error the specification calls fatal at start-up. *)
Definition config_error (w : World) : Prop :=
  match envconfig_Process w with
  | inr _ => True
  | inl cfg =>
    is_err (Hex.DecodeString (ChainHash cfg)) = true \/
    is_err (parseKey (SignerPrivateKey cfg)) = true \/
    is_err (parseKey (SenderPrivateKey cfg)) = true
  end.

(** A collaborator could not be constructed: the beacon client, the RPC
    client, the contract binding or the Updater. *)
Definition collaborator_error (w : World) : Prop :=
  match envconfig_Process w with
  | inr _ => False
  | inl cfg =>
    match Hex.DecodeString (ChainHash cfg) with
    | inr _ => False
    | inl chainHash =>
      is_Some (client_New w (DrandURLs cfg) chainHash) \/
      is_Some (ethclient_Dial w (RPC cfg)) \/
      is_Some (binding_NewBinding w (common_HexToAddress w (DrandOracleAddress cfg))) \/
      match parseKey (SignerPrivateKey cfg), parseKey (SenderPrivateKey cfg) with
      | inl sk, inl pk =>
        is_Some (service_NewUpdater w (SetRandomnessGasLimit cfg) (ChainID cfg)
                   (common_HexToAddress w (DrandOracleAddress cfg))
                   (GenesisRound cfg) sk pk)
      | _, _ => False
      end
    end
  end.

End Startup.

(** *** The health-check handler *)

Definition StatusOK : Z := 200.

(** An [http.ResponseWriter]: the status line, once written, and the body
    so far. *)
Record ResponseWriter := mkRW {
  wroteHeader : bool;
  status : Z;
  body : string
}.

Definition newResponse : ResponseWriter := mkRW false 0 "".

Definition WriteHeader (code : Z) (w : ResponseWriter) : ResponseWriter :=
  if wroteHeader w then w else mkRW true code (body w).

Definition Write (b : string) (w : ResponseWriter) : ResponseWriter :=
  let w := if wroteHeader w then w else WriteHeader StatusOK w in
  mkRW (wroteHeader w) (status w) (body w +:+ b).

Record Request := mkRequest {
  Method : string;
  Path : string
}.

Definition Handler := ResponseWriter -> Request -> ResponseWriter.

(** The function registered for [/health]. *)
Definition healthHandler : Handler :=
  fun w r => Write "OK" (WriteHeader StatusOK w).

(** An [http.ServeMux]: patterns and their handlers. *)
Definition ServeMux := list (string * Handler).

(** [healthMux] after [HandleFunc]. *)
Definition healthMux : ServeMux := [("/health", healthHandler)].

(** The handler a mux selects for a path in canonical form, when a
    pattern that does not end in a slash names it: such a pattern matches
    that path only, whatever the method. [None] when no registered pattern
    of this kind matches; the answer then comes from [net/http]. *)
Definition mux_handler (mux : ServeMux) (path : string) : option Handler :=
  snd <$> List.find (fun ph => String.eqb (fst ph) path) mux.

Definition ServeHTTP (mux : ServeMux) (r : Request) : option ResponseWriter :=
  h ← mux_handler mux (Path r); Some (h newResponse r).

Definition MethodHead : string := "HEAD".

(** What the server puts on the wire of what the handler wrote: the
    response writer of [net/http] eats the handler's writes to the body when
    the request's method is HEAD; the status line is sent as written. *)
Definition sent (r : Request) (w : ResponseWriter) : ResponseWriter :=
  if String.eqb (Method r) MethodHead
  then mkRW (wroteHeader w) (status w) ""
  else w.

(** What the client receives from the handler the mux selects. *)
Definition answer (mux : ServeMux) (r : Request) : option ResponseWriter :=
  sent r <$> ServeHTTP mux r.

(** *** The three services under one [errgroup] *)

(** What a goroutine launched by [errGroup.Go] is doing. *)
Inductive gstate :=
| Running
| Returned (err : option error).

(** The goroutine that waits for [ctx.Done()] and then calls [Shutdown]. *)
Inductive watcher := Waiting | CalledShutdown.

Inductive mstate :=
| InWait                 (* main is in errGroup.Wait() *)
| Exited (code : Z).

Record group := mkGroup {
  ctx_done : bool;                (* ctx of errgroup.WithContext is cancelled *)
  g_err : option error;           (* the error errOnce recorded *)
  updater : gstate;
  health : gstate;
  metricsSrv : gstate;
  healthWatcher : watcher;
  metricsWatcher : watcher;
  mainState : mstate
}.

(** After the three calls of [errGroup.Go]. *)
Definition started : group :=
  mkGroup false None Running Running Running Waiting Waiting InWait.

(** [errgroup]: the first function to return a non-nil error records it
    and cancels the context. *)
Definition finish (g_err0 : option error) (done0 : bool) (ret : option error)
    : option error * bool :=
  match ret, g_err0 with
  | Some e, None => (Some e, true)
  | Some _, Some _ => (g_err0, true)
  | None, _ => (g_err0, done0)
  end.

Definition exit_code (err : option error) : Z :=
  match err with Some _ => 1 | None => 0 end.

Inductive step : group -> group -> Prop :=
(* updater.Start(ctx) returns; the closure returns the same error *)
| step_updater g ret :
    mainState g = InWait -> updater g = Running ->
    step g (let '(e, d) := finish (g_err g) (ctx_done g) ret in
            mkGroup d e (Returned ret) (health g) (metricsSrv g)
              (healthWatcher g) (metricsWatcher g) InWait)
(* healthServer.ListenAndServe() returns an error other than
   http.ErrServerClosed; the closure returns it *)
| step_health_fails g e :
    mainState g = InWait -> health g = Running ->
    step g (let '(e', d) := finish (g_err g) (ctx_done g) (Some e) in
            mkGroup d e' (updater g) (Returned (Some e)) (metricsSrv g)
              (healthWatcher g) (metricsWatcher g) InWait)
(* after Shutdown, ListenAndServe returns http.ErrServerClosed; the
   closure returns nil *)
| step_health_closed g :
    mainState g = InWait -> health g = Running ->
    healthWatcher g = CalledShutdown ->
    step g (mkGroup (ctx_done g) (g_err g) (updater g) (Returned None)
              (metricsSrv g) (healthWatcher g) (metricsWatcher g) InWait)
| step_metrics_fails g e :
    mainState g = InWait -> metricsSrv g = Running ->
    step g (let '(e', d) := finish (g_err g) (ctx_done g) (Some e) in
            mkGroup d e' (updater g) (health g) (Returned (Some e))
              (healthWatcher g) (metricsWatcher g) InWait)
| step_metrics_closed g :
    mainState g = InWait -> metricsSrv g = Running ->
    metricsWatcher g = CalledShutdown ->
    step g (mkGroup (ctx_done g) (g_err g) (updater g) (health g)
              (Returned None) (healthWatcher g) (metricsWatcher g) InWait)
(* <-ctx.Done(); healthServer.Shutdown(context.Background()) *)
| step_health_watcher g :
    mainState g = InWait -> ctx_done g = true -> healthWatcher g = Waiting ->
    step g (mkGroup (ctx_done g) (g_err g) (updater g) (health g)
              (metricsSrv g) CalledShutdown (metricsWatcher g) InWait)
| step_metrics_watcher g :
    mainState g = InWait -> ctx_done g = true -> metricsWatcher g = Waiting ->
    step g (mkGroup (ctx_done g) (g_err g) (updater g) (health g)
              (metricsSrv g) (healthWatcher g) CalledShutdown InWait)
(* errGroup.Wait() returns once the three functions have returned; a
   non-nil error goes to log.Fatal, which exits with status 1 *)
| step_wait g r1 r2 r3 :
    mainState g = InWait ->
    updater g = Returned r1 -> health g = Returned r2 ->
    metricsSrv g = Returned r3 ->
    step g (mkGroup true (g_err g) (updater g) (health g) (metricsSrv g)
              (healthWatcher g) (metricsWatcher g) (Exited (exit_code (g_err g)))).

Definition reachable (g : group) : Prop := rtc step started g.

Definition returned_error (s : gstate) : Prop :=
  exists e, s = Returned (Some e).

(** One of the three has terminated with a non-nil error. *)
Definition failed (g : group) : Prop :=
  returned_error (updater g) \/ returned_error (health g) \/
  returned_error (metricsSrv g).

(** What holds in every state the process reaches: a failure has been
    recorded and has cancelled the context, and the exit status is the one
    of the recorded error. *)
Definition group_inv (g : group) : Prop :=
  (failed g -> ctx_done g = true /\ is_Some (g_err g)) /\
  (forall c, mainState g = Exited c -> c = exit_code (g_err g)).

(** *** What is due once the context is cancelled *)






End Main.

(** ** The Updater *)

Module Updater.

(** Modelled from the spec: what one attempt to submit a round comes to
    (the Sender and the chain gateway are not among the sources). The
    submission is confirmed, or it fails: with an error, or with a timeout
    that leaves open whether the transaction was applied. [applied] says
    whether the chain holds the round after a failed attempt. *)
Inductive outcome :=
| Confirmed
| Failed (applied : bool).

(** Modelled from the spec: the collaborators of the Updater, as the
    deterministic fakes of section 9 (the Updater and its interfaces are not
    among the sources): what the beacon source answers to each read of its
    latest round, and what each attempt to submit a round comes to. *)
Record Env := mkEnv {
  genesisRound : Z;
  beaconLatest : nat -> Z;          (* the answer to the k-th read *)
  outcome_of : Z -> nat -> outcome; (* round, attempt *)
  baseDelay : Z;
  maxDelay : Z
}.

(** Whether a round is taken from the backlog or in the watch loop. *)
Inductive mode := Backlog | Steady.

(** Modelled from the spec: the states of section 4.1. [CatchingUp] and
    [Watching] hold the next round to take. *)
Inductive phase :=
| Initializing
| CatchingUp (r : Z)
| Watching (r : Z)
| Submitting (m : mode) (r : Z) (attempt : nat)
| Backoff (m : mode) (r : Z) (attempt : nat)
| Terminated.

(** Modelled from the spec: what the Updater holds and what it has done to
    its collaborators so far. *)
Record state := mkState {
  at_ : phase;
  onchain : Z;               (* the chain gateway's latest round *)
  reads : nat;               (* reads of the beacon's latest round *)
  attempts : list Z;         (* rounds handed to the Sender, oldest first *)
  confirmed : list Z;        (* rounds whose submission was confirmed *)
  settled : list Z;          (* rounds done with: confirmed or found set *)
  successTotal : Z;          (* success counter *)
  failureTotal : Z;          (* failure counter *)
  oracleRound : option Z;    (* on-chain round gauge *)
  waits : list Z             (* backoff intervals waited *)
}.

Definition init (L : Z) : state :=
  mkState Initializing L 0 [] [] [] 0 0 None [].

Definition goto (p : phase) (s : state) : state :=
  mkState p (onchain s) (reads s) (attempts s) (confirmed s) (settled s)
    (successTotal s) (failureTotal s) (oracleRound s) (waits s).

(** One more read of the beacon's latest round. *)
Definition read (s : state) : state :=
  mkState (at_ s) (onchain s) (S (reads s)) (attempts s) (confirmed s)
    (settled s) (successTotal s) (failureTotal s) (oracleRound s) (waits s).

(** Where the Updater goes for round [r] after a round in mode [m]. *)
Definition next (m : mode) (r : Z) : phase :=
  match m with
  | Backlog => CatchingUp r
  | Steady => Watching r
  end.

(** Capped doubling from the base delay. *)
Definition delay (e : Env) (attempt : nat) : Z :=
  Z.min (baseDelay e * 2 ^ Z.of_nat attempt) (maxDelay e).

(** Modelled from the spec: the Updater's state machine
    ([service.NewUpdater] and [Start] are not among the sources), one
    transition of section 4.1 per step; [done] is the shutdown signal, which
    every state observes. [Initializing] reads the on-chain round [L] and
    starts at [max (L+1) genesisRound]. [CatchingUp] re-reads the beacon's
    latest round, takes the next round if there is one and otherwise
    switches to [Watching], which does the same each time it looks.
    [Submitting] hands the round to the Signer and the Sender. On
    confirmation it sets the on-chain gauge, counts a success and advances.
    On failure it re-reads the chain's latest round: a round found set is
    round-complete, no failure, and the Updater advances; otherwise it
    counts a failure and goes to [Backoff], which waits and submits the
    same round again. *)
Definition step (e : Env) (done : bool) (s : state) : state :=
  if done then goto Terminated s else
  match at_ s with
  | Initializing =>
    goto (CatchingUp (Z.max (onchain s + 1) (genesisRound e))) s
  | CatchingUp r =>
    if r <=? beaconLatest e (reads s) then goto (Submitting Backlog r 0) (read s)
    else goto (Watching r) (read s)
  | Watching r =>
    if r <=? beaconLatest e (reads s) then goto (Submitting Steady r 0) (read s)
    else goto (Watching r) (read s)
  | Submitting m r k =>
    match outcome_of e r k with
    | Confirmed =>
      mkState (next m (r + 1)) (Z.max (onchain s) r) (reads s)
        (attempts s ++ [r]) (confirmed s ++ [r]) (settled s ++ [r])
        (successTotal s + 1) (failureTotal s) (Some r) (waits s)
    | Failed applied =>
      let latest := if applied then Z.max (onchain s) r else onchain s in
      if r <=? latest then
        mkState (next m (r + 1)) latest (reads s)
          (attempts s ++ [r]) (confirmed s) (settled s ++ [r])
          (successTotal s) (failureTotal s) (oracleRound s) (waits s)
      else
        mkState (Backoff m r k) latest (reads s)
          (attempts s ++ [r]) (confirmed s) (settled s)
          (successTotal s) (failureTotal s + 1) (oracleRound s) (waits s)
    end
  | Backoff m r k =>
    mkState (Submitting m r (S k)) (onchain s) (reads s) (attempts s)
      (confirmed s) (settled s) (successTotal s) (failureTotal s)
      (oracleRound s) (waits s ++ [delay e k])
  | Terminated => s
  end.

(** [n] transitions during which no shutdown is signalled. *)
Definition run (e : Env) (n : nat) (s : state) : state :=
  Nat.iter n (step e false) s.

(** Attempt [tries r] is the first at round [r] that is not lost: the
    attempts before it fail and leave the chain as it was. *)
Definition first_kept (e : Env) (tries : Z -> nat) (r : Z) : Prop :=
  (forall k, (k < tries r)%nat -> outcome_of e r k = Failed false) /\
  outcome_of e r (tries r) <> Failed false.

(** The attempts the backlog [rs] costs: each round once per lost attempt
    and once more. *)
Definition attempts_of (tries : Z -> nat) (rs : list Z) : list Z :=
  flat_map (fun r => replicate (S (tries r)) r) rs.

Definition is_confirmed (o : outcome) : bool :=
  match o with Confirmed => true | Failed _ => false end.

(** The rounds of [rs] whose first attempt that is not lost is confirmed. *)
Definition confirmed_of (e : Env) (tries : Z -> nat) (rs : list Z) : list Z :=
  List.filter (fun r => is_confirmed (outcome_of e r (tries r))) rs.

(** The lost attempts of the backlog [rs]. *)
Definition lost_of (tries : Z -> nat) (rs : list Z) : Z :=
  fold_right (fun r acc => Z.of_nat (tries r) + acc) 0 rs.

(** The states that differ from [s] in the count of beacon reads only. *)
Definition same_work (s s' : state) : Prop :=
  at_ s' = at_ s /\ onchain s' = onchain s /\ attempts s' = attempts s /\
  confirmed s' = confirmed s /\ settled s' = settled s /\
  successTotal s' = successTotal s /\ failureTotal s' = failureTotal s /\
  oracleRound s' = oracleRound s /\ waits s' = waits s.

End Updater.

(** ** Concrete inputs *)

(** A concrete choice of the external functions, to run the embedding on:
    addresses and points are given by their printed form. *)
Definition sample_externals : Externals := {|
  Address := string;
  Address_Hex := fun a => a;
  Point := string;
  Point_String := fun p => p;
  Duration_String := fun d => (Fmt.Sprintf_d (d / 1000000000) +:+ "s");
  Info_Hash := fun i => Chain.GenesisSeed i
|}.

Definition sample_info : Chain.Info string :=
  Chain.mkInfo "868f005eb8e6e4ca0a47c8a77ceaa5309a47978a7c71bc5cce96366b5d7a569937c529eeda66c7293784a9402801af31"
    "default" 30000000000 "pedersen-bls-chained" 1595431050
    [x17; xf6; x3a].

Definition sample_key : string :=
  "4c0883a69102937d6231471b5dbb6204fe5129617082792ae468d01a3f362318".

(** A world in which the configuration is well-formed and both keys are
    valid, but the beacon client cannot be created. *)
Definition sample_config : Main.Config :=
  Main.mkConfig
    "8990e7a9aaed2ffed73dbd7092123d6f289930540d7651336225dc172e51b2ce"
    ["https://api.drand.sh"] "http://localhost:8545"
    "0x5FbDB2315678afecb367f032d93F642f64180aa3" 31337
    ("0x" +:+ sample_key) sample_key 100000 1 8080 9090.

Definition world_no_beacon : Main.World (H := sample_externals) :=
  @Main.mkWorld sample_externals (inl sample_config)
    (fun _ _ => Some "no points of contact specified")
    (fun _ => None) (fun a : string => a) (fun _ => None)
    (fun _ _ _ _ _ _ => None).

Definition world_ok : Main.World (H := sample_externals) :=
  @Main.mkWorld sample_externals (inl sample_config)
    (fun _ _ => None) (fun _ => None) (fun a : string => a) (fun _ => None)
    (fun _ _ _ _ _ _ => None).

(** The same world with a signer key that is not hexadecimal. *)
Definition world_bad_key : Main.World (H := sample_externals) :=
  @Main.mkWorld sample_externals
    (inl (Main.mkConfig
            "8990e7a9aaed2ffed73dbd7092123d6f289930540d7651336225dc172e51b2ce"
            ["https://api.drand.sh"] "http://localhost:8545"
            "0x5FbDB2315678afecb367f032d93F642f64180aa3" 31337
            "0xnot-a-key" sample_key 100000 1 8080 9090))
    (fun _ _ => None) (fun _ => None) (fun a : string => a) (fun _ => None)
    (fun _ _ _ _ _ _ => None).

(** The health server fails to bind its port while the other two run. *)
Definition group_health_failed : Main.group :=
  Main.mkGroup true (Some "listen tcp :8080: bind: address already in use")
    Main.Running
    (Main.Returned (Some "listen tcp :8080: bind: address already in use"))
    Main.Running Main.Waiting Main.Waiting Main.InWait.

(** The scenarios of section 8: genesis round 100, on-chain round 100, the
    beacon at 103. In the first the submission of round 101 times out once
    and the chain is found still at 100; in the second round 102 is lost
    twice and the timed out submission of round 103 is found applied. *)
Definition scenario_env : Updater.Env :=
  Updater.mkEnv 100 (fun _ => 103)
    (fun r k => if (r =? 101) && (k =? 0)%nat then Updater.Failed false
                else Updater.Confirmed) 1 8.

Definition scenario_mixed : Updater.Env :=
  Updater.mkEnv 100 (fun _ => 103)
    (fun r k => if (r =? 102) && (k <? 2)%nat then Updater.Failed false
                else if r =? 103 then Updater.Failed true
                else Updater.Confirmed) 1 8.

Definition scenario_tries (r : Z) : nat :=
  if r =? 102 then 2%nat else 0%nat.

(** Calls of the Updater into the metrics during one round. *)
Definition sample_ops : list op :=
  [OpSetDrandRound 0x4059000000000000; OpIncSetRandomnessFailure;
   OpIncSetRandomnessSuccess; OpSetOracleRound 0x4059000000000000].

(** The bits of the [float64] 1e18. *)
Definition f64_1e18 : Z := 0x43ABC16D674EC800.

(** ** Further invariants of the three services *)

(** Nothing is cancelled, shut down or stopped without an error before one
    of the three has failed, and [Wait] returns only when all three have
    returned. *)
Definition quiet_until_failure (g : Main.group) : Prop :=
  (Main.ctx_done g = true -> Main.mainState g = Main.InWait -> Main.failed g) /\
  (Main.healthWatcher g = Main.CalledShutdown -> Main.failed g) /\
  (Main.metricsWatcher g = Main.CalledShutdown -> Main.failed g) /\
  (Main.health g = Main.Returned None ->
   Main.healthWatcher g = Main.CalledShutdown) /\
  (Main.metricsSrv g = Main.Returned None ->
   Main.metricsWatcher g = Main.CalledShutdown) /\
  (forall c, Main.mainState g = Main.Exited c ->
     exists r1 r2 r3, Main.updater g = Main.Returned r1 /\
                      Main.health g = Main.Returned r2 /\
                      Main.metricsSrv g = Main.Returned r3).

(** The Updater has returned without an error while both servers run. *)
Definition group_updater_done : Main.group :=
  Main.mkGroup false None (Main.Returned None) Main.Running Main.Running
    Main.Waiting Main.Waiting Main.InWait.

(** The run in which the health server fails to bind, the metrics server is
    shut down, the Updater returns and [Wait] hands the error to
    [log.Fatal]. *)
Definition bind_error : Main.error :=
  "listen tcp :8080: bind: address already in use".

Definition group_exited : Main.group :=
  Main.mkGroup true (Some bind_error) (Main.Returned None)
    (Main.Returned (Some bind_error)) (Main.Returned None)
    Main.Waiting Main.CalledShutdown (Main.Exited 1).

(** After the health server, the metrics server fails too. *)
Definition group_both_failed : Main.group :=
  Main.mkGroup true (Some bind_error) Main.Running
    (Main.Returned (Some bind_error))
    (Main.Returned (Some "listen tcp :9090: bind: permission denied"))
    Main.Waiting Main.Waiting Main.InWait.

(** ** What [main] does besides logging *)

Definition is_log (e : Main.event) : bool :=
  match e with Main.Info _ => true | _ => false end.

(** The steps of a run of [main] that are not [log.Info] lines. *)
Definition actions (tr : list Main.event) : list Main.event :=
  List.filter (fun e => negb (is_log e)) tr.

(** A string has an even number of characters. *)
Fixpoint even_length (s : string) : bool :=
  match s with
  | EmptyString => true
  | String _ EmptyString => false
  | String _ (String _ r) => even_length r
  end.

(** A world whose chain hash has an odd number of hex digits. *)
Definition world_odd_hash : Main.World (H := sample_externals) :=
  @Main.mkWorld sample_externals
    (inl (Main.mkConfig "8990e7a" ["https://api.drand.sh"]
            "http://localhost:8545"
            "0x5FbDB2315678afecb367f032d93F642f64180aa3" 31337
            sample_key sample_key 100000 1 8080 9090))
    (fun _ _ => None) (fun _ => None) (fun a : string => a) (fun _ => None)
    (fun _ _ _ _ _ _ => None).

(** ** The children the shared calls write *)

(** The collector and the label values a shared call addresses. *)
Definition target `{Externals} (m : V2.Metrics) (o : op) : string * list string :=
  match o with
  | OpSetDrandRound _ => (V2.drandRoundTotal m, [V2.chainHash m])
  | OpSetOracleRound _ =>
    (V2.oracleRoundTotal m,
     [Fmt.Sprintf_d (V2.chainID m); Address_Hex (V2.oracleAddress m)])
  | OpIncSetRandomnessSuccess =>
    (V2.setRandomnessSuccessTotal m,
     [Fmt.Sprintf_d (V2.chainID m); Address_Hex (V2.oracleAddress m)])
  | OpIncSetRandomnessFailure =>
    (V2.setRandomnessFailureTotal m,
     [Fmt.Sprintf_d (V2.chainID m); Address_Hex (V2.oracleAddress m)])
  end.

(** What the child holds after the call, from what it held: [Set] stores the
    argument, [Inc] adds one to the 64-bit count. *)
Definition new_value (o : op) (old : Z) : Z :=
  match o with
  | OpSetDrandRound round => round
  | OpSetOracleRound round => round
  | OpIncSetRandomnessSuccess => (old + 1) mod 2 ^ 64
  | OpIncSetRandomnessFailure => (old + 1) mod 2 ^ 64
  end.

(** The argument of the last [SetDrandRound] among [ops], if any. *)
Definition last_drand_round (ops : list op) : option Z :=
  last (omap (fun o => match o with OpSetDrandRound r => Some r | _ => None end) ops).

(** The argument of the last [SetOracleRound] among [ops], if any. *)
Definition last_oracle_round (ops : list op) : option Z :=
  last (omap (fun o => match o with OpSetOracleRound r => Some r | _ => None end) ops).

Definition is_success (o : op) : bool :=
  match o with OpIncSetRandomnessSuccess => true | _ => false end.

Definition is_failure (o : op) : bool :=
  match o with OpIncSetRandomnessFailure => true | _ => false end.

(** How many of [ops] satisfy [f]. *)
Definition count_ops (f : op -> bool) (ops : list op) : Z :=
  Z.of_nat (List.length (List.filter f ops)).

(** What a scrape reads for a counter child incremented [n] times since the
    process started: nothing before the first increment. *)
Definition counter_reading (n : Z) : option Z :=
  if n =? 0 then None else Some (n mod 2 ^ 64).

(** The metrics and the registry of a process right after [NewMetrics]. *)
Definition sample_metrics : V2.Metrics (H := sample_externals) :=
  V2.metrics_of (H := sample_externals) 1 "0xAb" "0xCd" sample_info.

Definition sample_registry : Prom.Registry :=
  <["drand_updater_balance_wei" := Collectors.updater_balance]>
    (Collectors.registered (H := sample_externals) sample_info ∅).


(** A non-empty string of decimal digits: how a balance is written. *)
Fixpoint all_digits (s : string) : bool :=
  match s with
  | EmptyString => true
  | String c r => Big.is_digit c && all_digits r
  end.

Definition decimal_numeral (s : string) : bool :=
  match s with
  | EmptyString => false
  | _ => all_digits s
  end.

(** The number a string of decimal digits denotes, most significant digit
    first. *)
Fixpoint decimal_value_from (s : string) (acc : Z) : Z :=
  match s with
  | EmptyString => acc
  | String c r => decimal_value_from r (acc * 10 + (Z.of_N (N_of_ascii c) - 48))
  end.

Definition decimal_value (s : string) : Z := decimal_value_from s 0.

(** * Properties *)

(** ** Strings and keys *)

Section KeyLemmas.
Import GoStrings.

Lemma TrimPrefix_0x_app (k : string) : TrimPrefix ("0x" +:+ k) "0x" = k.
Proof. reflexivity. Qed.

Lemma hex_digit_not_x (c : ascii) : Hex.is_hex_digit c = true -> c <> "x"%char.
Proof. intros Hc ->. discriminate Hc. Qed.

Lemma TrimPrefix_0x_hex (k : string) :
  Hex.is_hex_string k = true -> TrimPrefix k "0x" = k.
Proof.
  intros Hk. unfold TrimPrefix.
  destruct k as [|a [|b k]];
    cbn [HasPrefix drop String.length Hex.is_hex_string] in *.
  - reflexivity.
  - by rewrite andb_false_r.
  - apply andb_prop in Hk as [_ Hk]. apply andb_prop in Hk as [Hb _].
    destruct (Ascii.eqb_spec "x" b) as [<-|_]; [discriminate Hb|].
    by rewrite andb_false_r.
Qed.
End KeyLemmas.

(** C10. A private key written in hex digits is parsed to the same key, or to
    the same error, with and without a leading "0x": [main] strips that
    prefix before [crypto.HexToECDSA], and a string of hex digits never
    starts with it. The derived address is a function of the key. *)
Theorem parseKey_0x_prefix (k : string) :
  Hex.is_hex_string k = true ->
  Main.parseKey ("0x" +:+ k) = Main.parseKey k.
Proof.
  intros Hk. unfold Main.parseKey.
  by rewrite TrimPrefix_0x_app, TrimPrefix_0x_hex.
Qed.


Lemma parseKey_0x_prefix_witness :
  Hex.is_hex_string sample_key = true /\
  Main.parseKey ("0x" +:+ sample_key) =
    inl {| Crypto.D :=
      0x4c0883a69102937d6231471b5dbb6204fe5129617082792ae468d01a3f362318 |}.
Proof.
  split; [reflexivity|].
  rewrite (parseKey_0x_prefix sample_key eq_refl). vm_compute. reflexivity.
Defined.

(** ** The health endpoint *)

(** C6. A GET request for [/health] is answered by the registered handler
    with status 200 and the fixed body "OK". *)
Theorem health_get_ok (r : Main.Request) :
  Main.Method r = "GET" ->
  Main.Path r = "/health" ->
  Main.ServeHTTP Main.healthMux r = Some (Main.mkRW true 200 "OK").
Proof.
  intros _ Hpath. unfold Main.ServeHTTP, Main.mux_handler, Main.healthMux.
  rewrite Hpath. reflexivity.
Qed.

Lemma health_get_ok_witness :
  Main.ServeHTTP Main.healthMux (Main.mkRequest "GET" "/health")
  = Some (Main.mkRW true 200 "OK").
Proof.
  apply (health_get_ok (Main.mkRequest "GET" "/health")); reflexivity.
Defined.

(** ** Start-up *)

Section StartupFacts.
Context `{Externals}.
Import Main.

Lemma is_Some_None_False {A} : ~ is_Some (@None A).
Proof. intros [x Hx]. discriminate Hx. Qed.

Ltac startup_cases w :=
  unfold fatal, config_error, collaborator_error, main;
  destruct (envconfig_Process w) as [cfg|?]; simpl;
  [ destruct (Hex.DecodeString (ChainHash cfg)) as [chainHash|?]; simpl;
    [ destruct (client_New w (DrandURLs cfg) chainHash); simpl;
      [| destruct (ethclient_Dial w (RPC cfg)); simpl;
         [| destruct (binding_NewBinding w
                        (common_HexToAddress w (DrandOracleAddress cfg))); simpl;
            [| destruct (parseKey (SignerPrivateKey cfg)) as [sk|?]; simpl;
               [ destruct (parseKey (SenderPrivateKey cfg)) as [pk|?]; simpl;
                 [ destruct (service_NewUpdater w (SetRandomnessGasLimit cfg)
                               (ChainID cfg)
                               (common_HexToAddress w (DrandOracleAddress cfg))
                               (GenesisRound cfg) sk pk); simpl |] |] ] ] ] |] |].

Lemma fatal_iff (w : World) :
  fatal (main w) <-> config_error w \/ collaborator_error w.
Proof.
  startup_cases w;
    (split;
     [ intros [msg Hmsg];
       first [ discriminate Hmsg
             | (left; by eauto)
             | (right; by eauto 6)
             | (left; by eauto 6) ]
     | intros Hc; first [ by eexists | exfalso ];
       repeat match goal with
              | H : _ \/ _ |- _ => destruct H
              | H : is_Some None |- _ => by apply is_Some_None_False in H
              | H : False |- _ => destruct H
              | H : false = true |- _ => discriminate H
              end ]).
Qed.

Lemma fatal_before_updater (w : World) :
  fatal (main w) -> Go TUpdater ∉ main w.
Proof.
  startup_cases w; intros [msg Hmsg]; try discriminate Hmsg;
    rewrite ?not_elem_of_cons; repeat split; try discriminate;
    apply not_elem_of_nil.
Qed.

Lemma started_when_not_fatal (w : World) :
  ~ fatal (main w) -> Go TUpdater ∈ main w.
Proof.
  startup_cases w; intros Hn;
    try (exfalso; apply Hn; by eexists).
  rewrite !elem_of_cons. auto 20.
Qed.
End StartupFacts.

(** C4, as stated, fails: start-up is fatal although the configuration is
    complete and well-formed and both keys parse. *)
Lemma startup_fatal_without_config_error :
  Main.fatal (Main.main world_no_beacon) /\
  ~ Main.config_error world_no_beacon.
Proof.
  split.
  - exists "error creating client". reflexivity.
  - unfold Main.config_error. simpl. intros [Hc|[Hc|Hc]]; vm_compute in Hc; discriminate Hc.
Qed.

(** C4, amended. Malformed or missing configuration and invalid key material
    end [main] in [log.Fatal] before the Updater is started; the other
    errors fatal at start-up are the failures to construct the beacon
    client, the RPC client, the contract binding and the Updater, and there
    are no more. *)
Theorem startup_fatal_classes `{Externals} (w : Main.World) :
  (Main.config_error w -> Main.fatal (Main.main w)) /\
  (Main.fatal (Main.main w) <-> Main.config_error w \/ Main.collaborator_error w) /\
  (Main.fatal (Main.main w) -> Main.Go Main.TUpdater ∉ Main.main w) /\
  (~ Main.fatal (Main.main w) -> Main.Go Main.TUpdater ∈ Main.main w).
Proof.
  repeat split.
  - intros Hc. apply fatal_iff. by left.
  - apply fatal_iff.
  - apply fatal_iff.
  - apply fatal_before_updater.
  - apply started_when_not_fatal.
Qed.

Lemma startup_fatal_classes_witness :
  Main.config_error world_bad_key /\
  Main.fatal (Main.main world_bad_key) /\
  Main.Go Main.TUpdater ∉ Main.main world_bad_key.
Proof.
  assert (Hc : Main.config_error world_bad_key).
  { unfold Main.config_error. simpl. right. left. reflexivity. }
  destruct (startup_fatal_classes world_bad_key) as (Hf & _ & Hbefore & _).
  split; [exact Hc|]. split; [exact (Hf Hc)|]. exact (Hbefore (Hf Hc)).
Defined.

(** ** The balance gauge *)

(** C3. [SetUpdaterBalance] does not return normally on a balance string
    that is not a number: [SetString] answers [(nil, false)], the [false] is
    dropped, and [Float64] is called on the nil pointer. *)
Theorem SetUpdaterBalance_malformed_panics `{Externals}
    (m : V2.Metrics) (reg : Prom.Registry) :
  V2.SetUpdaterBalance m "abc" reg =
    Some (Panic "runtime error: invalid memory address or nil pointer dereference")
  /\ ~ (exists r, V2.SetUpdaterBalance m "abc" reg = Some r /\ returns_normally r).
Proof.
  split; [reflexivity|].
  intros (r & Hr & Hn). cbv in Hr. injection Hr as <-. exact Hn.
Qed.

(** ** The three services *)

Section ErrGroup.
Import Main.

Lemma finish_some g0 d0 e :
  exists e', finish g0 d0 (Some e) = (Some e', true).
Proof. destruct g0; simpl; eauto. Qed.

Lemma not_failed_started : ~ failed started.
Proof. intros [[e He]|[[e He]|[e He]]]; discriminate He. Qed.

Lemma group_inv_started : group_inv started.
Proof.
  split; [intros Hf; by destruct not_failed_started | intros c Hc; discriminate Hc].
Qed.

Ltac failed_cases H :=
  destruct H as [[? H]|[[? H]|[? H]]]; simpl in H; try discriminate H.

Lemma step_failed_stable g g' : step g g' -> failed g -> failed g'.
Proof.
  unfold failed, returned_error.
  intros Hs Hf; inversion Hs; subst; clear Hs;
    repeat match goal with
           | |- context [finish ?a ?b ?c] => destruct (finish a b c)
           end; simpl;
    failed_cases Hf; eauto; congruence.
Qed.

Lemma step_inv g g' : step g g' -> group_inv g -> group_inv g'.
Proof.
  intros Hs [Hfail Hexit]; inversion Hs; subst; clear Hs.
  - (* updater returns *)
    destruct ret as [e|].
    + destruct (finish_some (g_err g) (ctx_done g) e) as [e' ->].
      split; simpl; [eauto | intros c Hc; discriminate Hc].
    + split; simpl; [| intros c Hc; discriminate Hc].
      intros Hf. apply Hfail. unfold failed, returned_error in *.
      failed_cases Hf; eauto.
  - destruct (finish_some (g_err g) (ctx_done g) e) as [e' ->].
    split; simpl; [eauto | intros c Hc; discriminate Hc].
  - split; simpl; [| intros c Hc; discriminate Hc].
    intros Hf. apply Hfail. unfold failed, returned_error in *.
    failed_cases Hf; eauto.
  - destruct (finish_some (g_err g) (ctx_done g) e) as [e' ->].
    split; simpl; [eauto | intros c Hc; discriminate Hc].
  - split; simpl; [| intros c Hc; discriminate Hc].
    intros Hf. apply Hfail. unfold failed, returned_error in *.
    failed_cases Hf; eauto.
  - split; simpl; [| intros c Hc; discriminate Hc].
    intros Hf. apply Hfail. exact Hf.
  - split; simpl; [| intros c Hc; discriminate Hc].
    intros Hf. apply Hfail. exact Hf.
  - split; simpl.
    + intros Hf. split; [reflexivity|]. apply Hfail. exact Hf.
    + intros c Hc. by injection Hc as <-.
Qed.

Lemma reachable_inv g : reachable g -> group_inv g.
Proof.
  unfold reachable. intros Hr.
  eapply (rtc_ind_r (fun g => group_inv g)); [apply group_inv_started | | exact Hr].
  intros y z _ Hstep Hy. by apply (step_inv y).
Qed.


Lemma exit_code_failed g c :
  group_inv g -> failed g -> mainState g = Exited c -> c = 1.
Proof.
  intros [Hfail Hexit] Hf Hc. destruct (Hfail Hf) as [_ [e He]].
  rewrite (Hexit c Hc), He. reflexivity.
Qed.
End ErrGroup.

Section ErrGroupMore.
Import Main.

Lemma failed_updater g e : updater g = Returned (Some e) -> failed g.
Proof. intros He. left. by exists e. Qed.

Lemma failed_health g e : health g = Returned (Some e) -> failed g.
Proof. intros He. right. left. by exists e. Qed.

Lemma failed_metrics g e : metricsSrv g = Returned (Some e) -> failed g.
Proof. intros He. right. right. by exists e. Qed.

Lemma quiet_started : quiet_until_failure started.
Proof.
  unfold quiet_until_failure, started; cbn.
  repeat split; try discriminate.
Qed.

Lemma step_quiet g g' : step g g' -> quiet_until_failure g -> quiet_until_failure g'.
Proof.
  intros Hs Hq. pose proof (step_failed_stable g g' Hs) as Hstable.
  destruct Hq as (Hc & Hhw & Hmw & Hh & Hm & Hex).
  inversion Hs; subst; clear Hs;
    try (destruct ret as [e|]);
    try (destruct (finish_some (g_err g) (ctx_done g) e) as [e' Hfin];
         rewrite Hfin in *);
    cbn in *;
    (split; [|split; [|split; [|split; [|split]]]];
     [ intros Hd Hx | intros Hx | intros Hx | intros Hx | intros Hx | intros c Hx ];
     cbn in *;
     try discriminate Hx;
     try (by eauto);
     try (by (apply Hstable; eauto));
     try (by (eapply failed_updater; reflexivity));
     try (by (eapply failed_health; reflexivity));
     try (by (eapply failed_metrics; reflexivity));
     try (by eauto 10)).
Qed.

Lemma reachable_quiet g : reachable g -> quiet_until_failure g.
Proof.
  unfold reachable. intros Hr.
  eapply (rtc_ind_r (fun g => quiet_until_failure g)); [apply quiet_started | | exact Hr].
  intros y z _ Hstep Hy. by apply (step_quiet y).
Qed.
End ErrGroupMore.

Section ErrGroupDrain.
Import Main.






End ErrGroupDrain.



(** ** The backlog *)

Section Backlog.
Import Updater.
Variable e : Env.

Lemma run_first n s : run e (S n) s = run e n (step e false s).
Proof. apply Nat.iter_succ_r. Qed.

Lemma run_add n m s : run e (m + n) s = run e m (run e n s).
Proof. unfold run. by rewrite Nat.iter_add. Qed.

(** One round, from an attempt to the first one that is not lost. *)
Lemma submit_round (tries : Z -> nat) m r :
  first_kept e tries r -> forall d k s,
  at_ s = Submitting m r k -> (k + d)%nat = tries r -> onchain s < r ->
  let c := is_confirmed (outcome_of e r (tries r)) in
  run e (2 * d + 1) s =
    mkState (next m (r + 1)) r (reads s) (attempts s ++ replicate (S d) r)
      (confirmed s ++ (if c then [r] else [])) (settled s ++ [r])
      (successTotal s + (if c then 1 else 0)) (failureTotal s + Z.of_nat d)
      (if c then Some r else oracleRound s)
      (waits s ++ (delay e <$> seq k d)).
Proof.
  intros [Hlost Hkept]. induction d as [|d IH]; intros k s Hat Hk Hlt c.
  - assert (k = tries r) by lia. subst k c.
    change (run e (2 * 0 + 1) s) with (step e false s).
    unfold step. cbn match. rewrite Hat.
    destruct (outcome_of e r (tries r)) as [|[|]]; cbn [is_confirmed].
    + rewrite Z.max_r by lia. cbn [replicate fmap list_fmap seq].
      rewrite app_nil_r, Z.add_0_r. reflexivity.
    + rewrite Z.max_r by lia. rewrite Z.leb_refl.
      cbn [replicate fmap list_fmap seq].
      rewrite !app_nil_r, !Z.add_0_r. reflexivity.
    + by destruct Hkept.
  - replace (2 * S d + 1)%nat with (S (S (2 * d + 1))) by lia.
    rewrite !run_first.
    assert (Hstep1 : step e false s =
      mkState (Backoff m r k) (onchain s) (reads s) (attempts s ++ [r])
        (confirmed s) (settled s) (successTotal s) (failureTotal s + 1)
        (oracleRound s) (waits s)).
    { unfold step. cbn match. rewrite Hat. rewrite (Hlost k) by lia.
      replace (r <=? onchain s) with false by (symmetry; apply Z.leb_gt; lia).
      reflexivity. }
    rewrite Hstep1.
    change (step e false (mkState (Backoff m r k) (onchain s) (reads s)
              (attempts s ++ [r]) (confirmed s) (settled s) (successTotal s)
              (failureTotal s + 1) (oracleRound s) (waits s)))
      with (mkState (Submitting m r (S k)) (onchain s) (reads s)
              (attempts s ++ [r]) (confirmed s) (settled s) (successTotal s)
              (failureTotal s + 1) (oracleRound s) (waits s ++ [delay e k])).
    rewrite (IH (S k)); [|reflexivity|lia|exact Hlt].
    cbn [at_ onchain reads attempts confirmed settled successTotal
         failureTotal oracleRound waits].
    f_equal.
    + rewrite <- app_assoc. reflexivity.
    + lia.
    + rewrite <- app_assoc. reflexivity.
Qed.

(** What holds of the counters and the gauge in every state. *)
Lemma step_metrics s :
  successTotal s = Z.of_nat (length (confirmed s)) /\
  oracleRound s = last (confirmed s) ->
  successTotal (step e false s) = Z.of_nat (length (confirmed (step e false s))) /\
  oracleRound (step e false s) = last (confirmed (step e false s)).
Proof.
  intros [Hs Ho]. unfold step. cbn match.
  destruct (at_ s) as [|r|r|m r k|m r k|]; try (split; assumption).
  - destruct (r <=? beaconLatest e (reads s)); split; assumption.
  - destruct (r <=? beaconLatest e (reads s)); split; assumption.
  - destruct (outcome_of e r k) as [|applied].
    + cbn [successTotal confirmed oracleRound].
      rewrite length_app, last_snoc. cbn [length]. split; [lia|reflexivity].
    + cbv zeta. destruct (r <=? _); split; assumption.
Qed.

Lemma run_metrics n L :
  successTotal (run e n (init L)) = Z.of_nat (length (confirmed (run e n (init L)))) /\
  oracleRound (run e n (init L)) = last (confirmed (run e n (init L))).
Proof.
  induction n as [|n IH]; [split; reflexivity|].
  change (run e (S n) (init L)) with (step e false (run e n (init L))).
  by apply step_metrics.
Qed.

(** Nothing but the count of reads changes in [Watching] while the beacon
    has no new round. *)
Lemma watching_stable r s :
  at_ s = Watching r -> (forall k, beaconLatest e k < r) ->
  forall n, same_work s (run e n s).
Proof.
  intros Hat Hb n. induction n as [|n IH]; [by repeat split|].
  change (run e (S n) s) with (step e false (run e n s)).
  destruct IH as (H1 & H2 & H3 & H4 & H5 & H6 & H7 & H8 & H9).
  unfold step. cbn match. rewrite H1, Hat.
  replace (r <=? beaconLatest e (reads (run e n s))) with false
    by (symmetry; apply Z.leb_gt; apply Hb).
  repeat split; first [assumption | by rewrite Hat].
Qed.

(** The whole backlog from round [r] on, the beacon staying at [D]. *)
Lemma catch_up (tries : Z -> nat) (D : Z) :
  (forall k, beaconLatest e k = D) -> forall j r s,
  at_ s = CatchingUp r -> onchain s = r - 1 ->
  Z.to_nat (D + 1 - r) = j -> r <= D + 1 ->
  (forall r', r <= r' <= D -> first_kept e tries r') ->
  exists n,
    let s' := run e n s in
    at_ s' = Watching (D + 1) /\ onchain s' = D /\
    attempts s' = attempts s ++ attempts_of tries (seqZ r (D + 1 - r)) /\
    settled s' = settled s ++ seqZ r (D + 1 - r) /\
    confirmed s' = confirmed s ++ confirmed_of e tries (seqZ r (D + 1 - r)) /\
    failureTotal s' = failureTotal s + lost_of tries (seqZ r (D + 1 - r)).
Proof.
  intros HD. induction j as [|j IH]; intros r s Hat Hon Hj Hle Hkept.
  - exists 1%nat. change (run e 1 s) with (step e false s).
    unfold step. cbn match. rewrite Hat, HD.
    replace (r <=? D) with false by (symmetry; apply Z.leb_gt; lia).
    rewrite seqZ_nil by lia. cbn. rewrite !app_nil_r.
    repeat split; try lia. f_equal. lia.
  - assert (Hr : r <= D) by lia.
    pose (s1 := goto (Submitting Backlog r 0) (read s)).
    assert (Hs1 : step e false s = s1).
    { unfold step. cbn match. rewrite Hat, HD.
      replace (r <=? D) with true by (symmetry; apply Z.leb_le; lia).
      reflexivity. }
    pose proof (submit_round tries Backlog r (Hkept r ltac:(lia))
                  (tries r) 0%nat s1 eq_refl eq_refl) as Hsub.
    cbv zeta in Hsub. specialize (Hsub ltac:(simpl; lia)).
    set (s2 := run e (2 * tries r + 1) s1) in *.
    destruct (IH (r + 1) s2) as (n & G1 & G2 & G3 & G4 & G5 & G6).
    { by rewrite Hsub. }
    { rewrite Hsub. simpl. lia. }
    { lia. }
    { lia. }
    { intros r' Hr'. apply Hkept. lia. }
    exists (n + (2 * tries r + 1) + 1)%nat.
    rewrite (run_add 1 (n + (2 * tries r + 1)) s).
    change (run e 1 s) with (step e false s). rewrite Hs1.
    rewrite (run_add (2 * tries r + 1) n s1).
    fold s2. cbv zeta.
    rewrite (seqZ_cons r) by lia.
    replace (Z.succ r) with (r + 1) by lia.
    replace (Z.pred (D + 1 - r)) with (D + 1 - (r + 1)) by lia.
    rewrite G1, G2, G3, G4, G5, G6, Hsub.
    cbn [attempts settled confirmed failureTotal].
    subst s1. cbn [attempts settled confirmed failureTotal goto read].
    unfold attempts_of, confirmed_of, lost_of.
    cbn [flat_map List.filter fold_right].
    destruct (is_confirmed (outcome_of e r (tries r)));
      rewrite <- !app_assoc; repeat split; try lia.
Qed.

Lemma attempts_of_once (tries : Z -> nat) (rs : list Z) :
  (forall r, r ∈ rs -> tries r = 0%nat) -> attempts_of tries rs = rs.
Proof.
  induction rs as [|r rs IH]; intros H0; [reflexivity|].
  unfold attempts_of in *. cbn [flat_map].
  rewrite (H0 r) by left. cbn [replicate app].
  f_equal. apply IH. intros r' Hr'. apply H0. by right.
Qed.

End Backlog.

(** C2, as the claim states it, fails in the scenario of section 8 in which
    the submission of round 101 times out and the chain is found still at
    round 100: with genesis round 100, on-chain round 100 and the beacon at
    103, the Updater hands round 101 to the Sender twice. From the ninth
    transition on the rounds submitted are 101, 101, 102, 103, a list with
    a repeat, and at no time are they 101, 102, 103. *)
Lemma backlog_lost_submission_repeats :
  Updater.genesisRound scenario_env <= 100 /\ 100 < 103 /\
  (forall k, Updater.beaconLatest scenario_env k = 103) /\
  (forall n, (9 <= n)%nat ->
     Updater.attempts (Updater.run scenario_env n (Updater.init 100))
       = [101; 101; 102; 103]) /\
  ~ NoDup [101; 101; 102; 103] /\
  (forall n, Updater.attempts (Updater.run scenario_env n (Updater.init 100))
               <> seqZ 101 (103 - 100)).
Proof.
  assert (Hlate : forall n, (9 <= n)%nat ->
     Updater.attempts (Updater.run scenario_env n (Updater.init 100))
       = [101; 101; 102; 103]).
  { intros n Hn. destruct (decide (n = 9%nat)) as [-> | Hne]; [reflexivity|].
    replace n with ((n - 10) + 10)%nat by lia. rewrite run_add.
    destruct (watching_stable scenario_env 104
                (Updater.run scenario_env 10 (Updater.init 100))
                eq_refl ltac:(intros k; cbn; lia) (n - 10)%nat)
      as (_ & _ & -> & _).
    reflexivity. }
  split; [cbn; lia|]. split; [lia|]. split; [reflexivity|].
  split; [exact Hlate|]. split.
  - intros Hnd. apply NoDup_cons in Hnd as [Hin _]. apply Hin. left.
  - intros n. destruct (decide (9 <= n)%nat) as [Hn|Hn].
    + rewrite (Hlate n Hn). discriminate.
    + do 9 (destruct n as [|n]; [vm_compute; discriminate|]). lia.
Qed.

(** C2, amended. With genesis round G, on-chain round L and the beacon at
    round D such that G <= L < D, and every round's submission confirmed or
    found applied after [tries r] lost attempts, the Updater reaches
    [Watching] and stays there, done with exactly the rounds L+1, ..., D,
    each once and in this order: position [i] of the settled rounds holds
    L+1+i. The rounds handed to the Sender are these same rounds in this
    order, each repeated once per lost attempt; where no attempt is lost
    they are exactly L+1, ..., D. The failure counter counts the lost
    attempts, the success counter the confirmed rounds, and the gauge shows
    the last confirmed round. *)
Theorem backlog_complete (e : Updater.Env) (L D : Z) (tries : Z -> nat) :
  Updater.genesisRound e <= L -> L < D ->
  (forall k, Updater.beaconLatest e k = D) ->
  (forall r, L < r <= D -> Updater.first_kept e tries r) ->
  exists n, forall m, (n <= m)%nat ->
    let s := Updater.run e m (Updater.init L) in
    let rounds := seqZ (L + 1) (D - L) in
    Updater.at_ s = Updater.Watching (D + 1) /\
    Updater.onchain s = D /\
    Updater.settled s = rounds /\
    (forall i r, Updater.settled s !! i = Some r <->
                 r = L + 1 + Z.of_nat i /\ Z.of_nat i < D - L) /\
    NoDup (Updater.settled s) /\
    Updater.attempts s = Updater.attempts_of tries rounds /\
    ((forall r, L < r <= D -> tries r = 0%nat) -> Updater.attempts s = rounds) /\
    Updater.failureTotal s = Updater.lost_of tries rounds /\
    Updater.confirmed s = Updater.confirmed_of e tries rounds /\
    Updater.successTotal s = Z.of_nat (length (Updater.confirmed s)) /\
    Updater.oracleRound s = last (Updater.confirmed s).
Proof.
  intros HG HL HD Hkept.
  pose (s0 := Updater.goto (Updater.CatchingUp (L + 1)) (Updater.init L)).
  assert (H0 : Updater.step e false (Updater.init L) = s0).
  { unfold Updater.step. simpl. by rewrite Z.max_l by lia. }
  destruct (catch_up e tries D HD (Z.to_nat (D + 1 - (L + 1))) (L + 1) s0)
    as (n & G1 & G2 & G3 & G4 & G5 & G6);
    [reflexivity | simpl; lia | reflexivity | lia
    | intros r Hr; apply Hkept; lia |].
  cbv zeta in G1, G2, G3, G4, G5, G6.
  exists (n + 1)%nat. intros m Hm.
  replace m with ((m - (n + 1)) + (n + 1))%nat by lia.
  rewrite (run_add e (n + 1) (m - (n + 1))).
  rewrite (run_add e 1 n).
  change (Updater.run e 1 (Updater.init L)) with (Updater.step e false (Updater.init L)).
  rewrite H0.
  destruct (watching_stable e (D + 1) (Updater.run e n s0) G1
              ltac:(intros k; rewrite HD; lia) (m - (n + 1))%nat)
    as (W1 & W2 & W3 & W4 & W5 & W6 & W7 & W8 & W9).
  pose proof (run_metrics e m L) as [M1 M2].
  replace m with ((m - (n + 1)) + (n + 1))%nat in M1, M2 by lia.
  rewrite (run_add e (n + 1) (m - (n + 1))) in M1, M2.
  rewrite (run_add e 1 n) in M1, M2.
  change (Updater.run e 1 (Updater.init L))
    with (Updater.step e false (Updater.init L)) in M1, M2.
  rewrite H0 in M1, M2.
  cbv zeta.
  replace (D + 1 - (L + 1)) with (D - L) in * by lia.
  simpl in G3, G4, G5, G6.
  rewrite W1, W2, W3, W5, W7, G1, G2, G3, G4, G6.
  split; [reflexivity|]. split; [reflexivity|]. split; [reflexivity|].
  split; [intros i r; apply lookup_seqZ|].
  split; [apply NoDup_seqZ|].
  split; [reflexivity|].
  split.
  { intros Hnone. apply attempts_of_once. intros r Hr.
    apply elem_of_seqZ in Hr. apply Hnone. lia. }
  split; [reflexivity|].
  split; [by rewrite W4, G5|].
  split; assumption.
Qed.

Lemma backlog_complete_witness :
  exists n, forall m, (n <= m)%nat ->
    Updater.at_ (Updater.run scenario_mixed m (Updater.init 100))
      = Updater.Watching 104 /\
    Updater.settled (Updater.run scenario_mixed m (Updater.init 100))
      = [101; 102; 103] /\
    Updater.attempts (Updater.run scenario_mixed m (Updater.init 100))
      = [101; 102; 102; 102; 103] /\
    Updater.confirmed (Updater.run scenario_mixed m (Updater.init 100))
      = [101; 102] /\
    Updater.failureTotal (Updater.run scenario_mixed m (Updater.init 100)) = 2.
Proof.
  destruct (backlog_complete scenario_mixed 100 103 scenario_tries) as [n Hn].
  - vm_compute. discriminate.
  - lia.
  - intros k. reflexivity.
  - intros r Hr.
    assert (Hcase : r = 101 \/ r = 102 \/ r = 103) by lia.
    destruct Hcase as [-> | [-> | ->]]; (split; [|vm_compute; discriminate]).
    + intros k Hk. vm_compute in Hk. lia.
    + intros [|[|k]] Hk; [reflexivity | reflexivity | vm_compute in Hk; lia].
    + intros k Hk. vm_compute in Hk. lia.
  - exists n. intros m Hm.
    destruct (Hn m Hm) as (H1 & _ & H3 & _ & _ & H6 & _ & H8 & H9 & _).
    split; [exact H1|]. split; [exact H3|]. split; [exact H6|].
    split; [exact H9|exact H8].
Defined.

(** ** Label values *)

Section Utf8.
Import GoStrings.

Lemma ValidString_ascii7 s : all_ascii7 s -> ValidString s = true.
Proof.
  unfold ValidString, bytes_of.
  induction s as [|c r IH]; [reflexivity|].
  intros [Hc Hr]. cbn [list_ascii_of_string map valid_utf8].
  replace (Z.of_N (N_of_ascii c) <? 128) with true
    by (symmetry; apply Z.ltb_lt; unfold ascii7 in Hc; lia).
  by apply IH.
Qed.

Lemma hextable_ascii7 (b : byte) :
  ascii7 (Hex.hextable (Z.shiftr (Z.of_N (Byte.to_N b)) 4)) /\
  ascii7 (Hex.hextable (Z.land (Z.of_N (Byte.to_N b)) 15)).
Proof. destruct b; split; vm_compute; reflexivity. Qed.

Lemma ValidString_hex (bs : list byte) :
  ValidString (Hex.EncodeToString bs) = true.
Proof.
  apply ValidString_ascii7.
  induction bs as [|b r IH]; [exact I|].
  cbn [Hex.EncodeToString all_ascii7].
  destruct (hextable_ascii7 b). auto.
Qed.

Lemma string_of_uint_ascii7 (d : Decimal.uint) :
  all_ascii7 (NilEmpty.string_of_uint d).
Proof.
  induction d; cbn [NilEmpty.string_of_uint all_ascii7]; try exact I;
    (split; [vm_compute; reflexivity | assumption]).
Qed.

Lemma ValidString_Sprintf_d (n : Z) : ValidString (Fmt.Sprintf_d n) = true.
Proof.
  apply ValidString_ascii7. unfold Fmt.Sprintf_d, NilZero.string_of_int.
  destruct (Z.to_int n) as [d|d]; unfold NilZero.string_of_uint.
  - destruct d; try (split; [vm_compute; reflexivity|]);
      try exact I; apply string_of_uint_ascii7.
  - split; [vm_compute; reflexivity|].
    destruct d; try (split; [vm_compute; reflexivity|]);
      try exact I; apply string_of_uint_ascii7.
Qed.
End Utf8.

(** ** The registry *)

Section Registry.
Import Prom.

Lemma MustRegister_fresh (v : Vec) (reg : Registry) :
  reg !! fqName v = None -> MustRegister v reg = Ok (<[fqName v := v]> reg).
Proof. unfold MustRegister. by intros ->. Qed.

Lemma MustRegister_taken (v : Vec) (reg : Registry) :
  is_Some (reg !! fqName v) ->
  MustRegister v reg = Panic "duplicate metrics collector registration attempted".
Proof. unfold MustRegister. by intros [w ->]. Qed.

Lemma alter_const_insert (ms : gmap (list string) Z) lvs (x val : Z) :
  alter (fun _ => val) lvs (<[lvs := x]> ms) = <[lvs := val]> ms.
Proof.
  apply map_eq. intros k. destruct (decide (lvs = k)) as [->|Hne].
  - by rewrite lookup_alter_eq, !lookup_insert_eq.
  - by rewrite lookup_alter_ne, !lookup_insert_ne.
Qed.

Lemma alter_present (f : Z -> Z) (ms : gmap (list string) Z) lvs x :
  ms !! lvs = Some x -> alter f lvs ms = <[lvs := f x]> ms.
Proof.
  intros Hx. apply map_eq. intros k. destruct (decide (lvs = k)) as [->|Hne].
  - by rewrite lookup_alter_eq, lookup_insert_eq, Hx.
  - by rewrite lookup_alter_ne, lookup_insert_ne.
Qed.

(** [WithLabelValues] followed by a write: the child, created if need be,
    holds [f] of what it held. *)
Lemma write_child (f : Z -> Z) h lvs reg v :
  reg !! h = Some v ->
  validateLabelValues lvs (List.length (variableLabels v)) = true ->
  (reg' ← WithLabelValues h lvs reg; Ok (update_child h lvs f reg'))
  = Ok (<[h := set_metrics v (<[lvs := f (child v lvs)]> (metrics v))]> reg).
Proof.
  intros Hh Hv. unfold WithLabelValues, child. rewrite Hh, Hv.
  destruct (metrics v !! lvs) as [x|] eqn:Hx; cbn [mbind result_bind rbind default].
  - unfold update_child. rewrite Hh. by rewrite (alter_present f _ _ x).
  - unfold update_child. rewrite lookup_insert_eq. cbn [metrics set_metrics fqName help variableLabels vkind].
    rewrite insert_insert_eq. do 2 f_equal. unfold set_metrics. f_equal.
    apply map_eq. intros k. destruct (decide (lvs = k)) as [->|Hne].
    + by rewrite lookup_alter_eq, !lookup_insert_eq.
    + by rewrite lookup_alter_ne, !lookup_insert_ne.
Qed.

Lemma Set_ok h lvs val reg v :
  reg !! h = Some v ->
  validateLabelValues lvs (List.length (variableLabels v)) = true ->
  Set_ h lvs val reg = Ok (<[h := set_metrics v (<[lvs := val]> (metrics v))]> reg).
Proof. intros. unfold Set_. by rewrite (write_child (fun _ => val) h lvs reg v). Qed.

Lemma Inc_ok h lvs reg v :
  reg !! h = Some v ->
  validateLabelValues lvs (List.length (variableLabels v)) = true ->
  Inc h lvs reg =
    Ok (<[h := set_metrics v
                 (<[lvs := (child v lvs + 1) mod 2 ^ 64]> (metrics v))]> reg).
Proof.
  intros. unfold Inc.
  by rewrite (write_child (fun n => (n + 1) mod 2 ^ 64) h lvs reg v).
Qed.

(** A write through one handle leaves every other collector alone, and
    commutes with registering another collector. *)
Lemma write_insert_ne (f : Z -> Z) h lvs k x reg :
  h <> k ->
  (reg' ← WithLabelValues h lvs (<[k := x]> reg); Ok (update_child h lvs f reg'))
  = (insert k x) <$> (reg' ← WithLabelValues h lvs reg; Ok (update_child h lvs f reg')).
Proof.
  intros Hne. unfold WithLabelValues, update_child.
  rewrite lookup_insert_ne by done.
  destruct (reg !! h) as [v|] eqn:Hh; [|reflexivity].
  destruct (validateLabelValues _ _); [|reflexivity].
  destruct (metrics v !! lvs) eqn:Hl; cbn [mbind result_bind rbind fmap result_fmap rmap].
  - rewrite lookup_insert_ne by done. rewrite Hh.
    by rewrite (insert_insert_ne _ h k) by done.
  - rewrite !lookup_insert_eq. f_equal. apply map_eq. intros j.
    destruct (decide (h = j)) as [<-|Hj].
    + by repeat (rewrite lookup_insert_eq || rewrite lookup_insert_ne by done).
    + destruct (decide (k = j)) as [<-|Hk];
        by repeat (rewrite lookup_insert_eq || rewrite lookup_insert_ne by done).
Qed.

Lemma write_other (f : Z -> Z) h lvs k reg reg2 :
  h <> k ->
  (reg' ← WithLabelValues h lvs reg; Ok (update_child h lvs f reg')) = Ok reg2 ->
  reg2 !! k = reg !! k.
Proof.
  intros Hne. unfold WithLabelValues, update_child.
  destruct (reg !! h) as [v|] eqn:Hh; [|discriminate].
  destruct (validateLabelValues _ _); [|discriminate].
  destruct (metrics v !! lvs) eqn:Hl; cbn [mbind result_bind rbind].
  - rewrite Hh. intros [= <-]. by rewrite lookup_insert_ne.
  - rewrite lookup_insert_eq. intros [= <-]. by rewrite !lookup_insert_ne.
Qed.
End Registry.

(** ** [NewMetrics] *)

Section NewMetricsFacts.
Context `{Externals}.
Import Prom.

Lemma info_labels_valid (i : Chain.Info Point) :
  validateLabelValues (info_label_values i) 6 = info_printable i.
Proof.
  unfold validateLabelValues, info_label_values, info_printable, HashString.
  cbn [List.length Nat.eqb forallb andb].
  rewrite !ValidString_hex, ValidString_Sprintf_d.
  cbn [andb]. rewrite !andb_true_r. by rewrite andb_assoc.
Qed.

Lemma fresh_cons (reg : Registry) n ns :
  fresh reg (n :: ns) <-> reg !! n = None /\ fresh reg ns.
Proof.
  unfold fresh. split.
  - intros Hf. by inversion Hf.
  - intros [Hn Hns]. by constructor.
Qed.

Ltac registry_step :=
  cbn [mbind result_bind rbind fmap result_fmap rmap fqName];
  repeat (rewrite lookup_insert_eq || rewrite lookup_insert_ne by done).

Lemma V1_NewMetrics_ok cid oa (i : Chain.Info Point) (reg : Registry) :
  fresh reg V1.metric_names -> info_printable i = true ->
  V1.NewMetrics cid oa i reg =
    Ok (V1.metrics_of cid oa i, Collectors.registered i reg).
Proof.
  unfold V1.metric_names. rewrite !fresh_cons.
  intros (H1 & H2 & H3 & H4 & H5 & _) Hp.
  unfold V1.NewMetrics, NewGaugeVec, NewCounterVec, MustRegister.
  registry_step. rewrite H1. registry_step. rewrite H2. registry_step.
  rewrite H3. registry_step. rewrite H4. registry_step. rewrite H5.
  registry_step.
  erewrite Set_ok;
    [ | by rewrite lookup_insert_eq
      | rewrite <- Hp; exact (info_labels_valid i) ].
  registry_step. unfold Collectors.registered. rewrite insert_insert_eq.
  reflexivity.
Qed.

Lemma Set_invalid h lvs val (reg : Registry) v :
  reg !! h = Some v ->
  validateLabelValues lvs (List.length (variableLabels v)) = false ->
  ~ returns_normally (Set_ h lvs val reg).
Proof. unfold Set_, WithLabelValues. intros -> ->. simpl. tauto. Qed.

Lemma V1_NewMetrics_inv cid oa (i : Chain.Info Point) (reg : Registry) m reg' :
  V1.NewMetrics cid oa i reg = Ok (m, reg') ->
  fresh reg V1.metric_names /\ info_printable i = true /\
  m = V1.metrics_of cid oa i /\ reg' = Collectors.registered i reg.
Proof.
  intros Hnew.
  assert (Hfresh : fresh reg V1.metric_names /\ info_printable i = true).
  { revert Hnew.
    unfold V1.NewMetrics, NewGaugeVec, NewCounterVec, MustRegister.
    unfold V1.metric_names. rewrite !fresh_cons.
    registry_step. destruct (reg !! "drand_round_number_network") eqn:H1;
      [discriminate|]. registry_step.
    destruct (reg !! "drand_round_number_oracle") eqn:H2; [discriminate|].
    registry_step.
    destruct (reg !! "drand_set_randomness_success_total") eqn:H3; [discriminate|].
    registry_step.
    destruct (reg !! "drand_set_randomness_failure_total") eqn:H4; [discriminate|].
    registry_step.
    destruct (reg !! "drand_network_info") eqn:H5; [discriminate|].
    registry_step. intros Hset.
    repeat split; try done; try (by constructor).
    destruct (info_printable i) eqn:Hp; [done|]. exfalso.
    match type of Hset with
    | context [Set_ ?h ?lvs ?val ?r] =>
      eapply (Set_invalid h lvs val r);
        [ by rewrite lookup_insert_eq
        | rewrite <- Hp; exact (info_labels_valid i)
        | destruct (Set_ h lvs val r); [exact I | discriminate Hset] ]
    end. }
  destruct Hfresh as [Hf Hp]. rewrite (V1_NewMetrics_ok cid oa i reg Hf Hp) in Hnew.
  injection Hnew as <- <-. auto.
Qed.

(** The later [NewMetrics] is the earlier one followed by the
    registration of the balance gauge. *)
Lemma V2_NewMetrics_V1 cid oa ua (i : Chain.Info Point) (reg : Registry) :
  reg !! "drand_updater_balance_wei" = None ->
  V2.NewMetrics cid oa ua i reg =
    '(m1, reg1) ← V1.NewMetrics cid oa i reg;
    Ok (V2.of_v1 m1 ua,
        <["drand_updater_balance_wei" := Collectors.updater_balance]> reg1).
Proof.
  intros Hbal.
  unfold V2.NewMetrics, V1.NewMetrics, NewGaugeVec, NewCounterVec, MustRegister.
  registry_step. destruct (reg !! "drand_round_number_network"); [reflexivity|].
  registry_step. destruct (reg !! "drand_round_number_oracle"); [reflexivity|].
  registry_step.
  destruct (reg !! "drand_set_randomness_success_total"); [reflexivity|].
  registry_step.
  destruct (reg !! "drand_set_randomness_failure_total"); [reflexivity|].
  registry_step. destruct (reg !! "drand_network_info"); [reflexivity|].
  registry_step.
  match goal with
  | |- context [Set_ ?h ?lvs ?val ?r] =>
    destruct (Set_ h lvs val r) as [R|msg] eqn:HS; [|reflexivity]
  end.
  registry_step.
  assert (HR : R !! "drand_updater_balance_wei" = None).
  { unfold Set_ in HS.
      rewrite (write_other _ "drand_network_info" _ "drand_updater_balance_wei"
                 _ R ltac:(done) HS).
    by repeat (rewrite lookup_insert_ne by done). }
  rewrite HR. reflexivity.
Qed.

Lemma V2_NewMetrics_ok cid oa ua (i : Chain.Info Point) (reg : Registry) :
  fresh reg V2.metric_names -> info_printable i = true ->
  V2.NewMetrics cid oa ua i reg =
    Ok (V2.metrics_of cid oa ua i,
        <["drand_updater_balance_wei" := Collectors.updater_balance]>
          (Collectors.registered i reg)).
Proof.
  unfold V2.metric_names. rewrite !fresh_cons.
  intros (H1 & H2 & H3 & H4 & H5 & H6 & _) Hp.
  rewrite V2_NewMetrics_V1 by done.
  rewrite V1_NewMetrics_ok; [reflexivity | | done].
  unfold V1.metric_names. rewrite !fresh_cons. repeat split; try done.
  constructor.
Qed.

Lemma V2_NewMetrics_inv cid oa ua (i : Chain.Info Point) (reg : Registry) m reg' :
  V2.NewMetrics cid oa ua i reg = Ok (m, reg') ->
  info_printable i = true /\
  m = V2.metrics_of cid oa ua i /\
  reg' = <["drand_updater_balance_wei" := Collectors.updater_balance]>
           (Collectors.registered i reg).
Proof.
  intros Hnew.
  destruct (reg !! "drand_updater_balance_wei") as [v|] eqn:Hbal.
  - exfalso. revert Hnew.
    unfold V2.NewMetrics, NewGaugeVec, NewCounterVec, MustRegister.
    registry_step. destruct (reg !! "drand_round_number_network"); [discriminate|].
    registry_step. destruct (reg !! "drand_round_number_oracle"); [discriminate|].
    registry_step.
    destruct (reg !! "drand_set_randomness_success_total"); [discriminate|].
    registry_step.
    destruct (reg !! "drand_set_randomness_failure_total"); [discriminate|].
    registry_step. destruct (reg !! "drand_network_info"); [discriminate|].
    registry_step.
    match goal with
    | |- context [Set_ ?h ?lvs ?val ?r] =>
      destruct (Set_ h lvs val r) as [R|msg] eqn:HS; [|discriminate]
    end.
    registry_step.
    assert (HR : R !! "drand_updater_balance_wei" = Some v).
    { unfold Set_ in HS.
      rewrite (write_other _ "drand_network_info" _ "drand_updater_balance_wei"
                 _ R ltac:(done) HS).
      by repeat (rewrite lookup_insert_ne by done). }
    rewrite HR. discriminate.
  - rewrite V2_NewMetrics_V1 in Hnew by done.
    destruct (V1.NewMetrics cid oa i reg) as [[m1 reg1]|msg] eqn:H1; [|discriminate].
    apply V1_NewMetrics_inv in H1 as (_ & Hp & -> & ->).
    injection Hnew as <- <-. auto.
Qed.
End NewMetricsFacts.

(** ** The two versions of [metrics.go] *)

Section Versions.
Context `{Externals}.
Import Prom.

Lemma V2_apply_V1 cid oa ua (i : Chain.Info Point) o x (reg : Registry) :
  V2.apply (V2.of_v1 (V1.metrics_of cid oa i) ua) o
    (<["drand_updater_balance_wei" := x]> reg)
  = insert "drand_updater_balance_wei" x <$> V1.apply (V1.metrics_of cid oa i) o reg.
Proof.
  destruct o; cbn [V2.apply V1.apply];
    unfold V2.SetDrandRound, V1.SetDrandRound, V2.SetOracleRound,
      V1.SetOracleRound, V2.IncSetRandomnessSuccess, V1.IncSetRandomnessSuccess,
      V2.IncSetRandomnessFailure, V1.IncSetRandomnessFailure, Set_, Inc;
    cbn [V2.of_v1 V1.metrics_of V2.drandRoundTotal V2.oracleRoundTotal
         V2.setRandomnessSuccessTotal V2.setRandomnessFailureTotal
         V2.chainHash V2.chainID V2.oracleAddress
         V1.drandRoundTotal V1.oracleRoundTotal
         V1.setRandomnessSuccessTotal V1.setRandomnessFailureTotal
         V1.chainHash V1.chainID V1.oracleAddress];
    by apply write_insert_ne.
Qed.

Lemma exec_ops_V1 cid oa ua (i : Chain.Info Point) ops x : forall reg : Registry,
  exec_ops (V2.apply (V2.of_v1 (V1.metrics_of cid oa i) ua)) ops
    (<["drand_updater_balance_wei" := x]> reg)
  = insert "drand_updater_balance_wei" x
      <$> exec_ops (V1.apply (V1.metrics_of cid oa i)) ops reg.
Proof.
  induction ops as [|o ops IH]; intros reg; [reflexivity|].
  cbn [exec_ops]. rewrite V2_apply_V1.
  destruct (V1.apply (V1.metrics_of cid oa i) o reg) as [reg1|msg];
    cbn [mbind result_bind rbind fmap result_fmap rmap]; [apply IH | reflexivity].
Qed.

Lemma session_V1 cid oa ua (i : Chain.Info Point) ops (reg : Registry) :
  reg !! "drand_updater_balance_wei" = None ->
  V2.session cid oa ua i ops reg
  = insert "drand_updater_balance_wei" Collectors.updater_balance
      <$> V1.session cid oa i ops reg.
Proof.
  intros Hbal. unfold V2.session, V1.session.
  rewrite V2_NewMetrics_V1 by done.
  destruct (V1.NewMetrics cid oa i reg) as [[m1 reg1]|msg] eqn:H1; [|reflexivity].
  apply V1_NewMetrics_inv in H1 as (_ & _ & -> & ->).
  cbn [mbind result_bind rbind]. apply exec_ops_V1.
Qed.
End Versions.

(** C9. From a registry without the balance gauge, the later version of the
    metrics does on every sequence of the shared calls what the earlier one
    does, and registers the balance gauge besides: both panic, with the same
    message, or both return, and then the registry of the later version is
    that of the earlier one with the empty balance gauge added, so every
    other metric has the same name, help, label names, children and
    values. *)
Theorem metrics_versions_agree `{Externals}
    (chainID : Z) (oracleAddress updaterAddress : Address)
    (drandInfo : Chain.Info Point) (ops : list op) (reg : Prom.Registry) :
  reg !! "drand_updater_balance_wei" = None ->
  V2.session chainID oracleAddress updaterAddress drandInfo ops reg
  = insert "drand_updater_balance_wei" Collectors.updater_balance
      <$> V1.session chainID oracleAddress drandInfo ops reg
  /\ (returns_normally (V1.session chainID oracleAddress drandInfo ops reg) <->
      returns_normally
        (V2.session chainID oracleAddress updaterAddress drandInfo ops reg))
  /\ (forall reg1 reg2,
        V1.session chainID oracleAddress drandInfo ops reg = Ok reg1 ->
        V2.session chainID oracleAddress updaterAddress drandInfo ops reg = Ok reg2 ->
        reg2 !! "drand_updater_balance_wei" = Some Collectors.updater_balance /\
        forall name, name <> "drand_updater_balance_wei" ->
                     reg2 !! name = reg1 !! name).
Proof.
  intros Hbal.
  pose proof (session_V1 chainID oracleAddress updaterAddress drandInfo ops reg Hbal)
    as Heq.
  split; [exact Heq|]. rewrite Heq. split.
  - by destruct (V1.session _ _ _ _ _).
  - intros reg1 reg2 ->. cbn [fmap result_fmap rmap]. intros [= <-]. split.
    + by rewrite lookup_insert_eq.
    + intros name Hname. by rewrite lookup_insert_ne.
Qed.

Lemma metrics_versions_agree_witness :
  (∅ : Prom.Registry) !! "drand_updater_balance_wei" = None /\
  returns_normally
    (V2.session (H := sample_externals) 1 "0xAb" "0xCd" sample_info sample_ops ∅).
Proof.
  split; [apply lookup_empty|].
  apply (proj1 (proj2 (metrics_versions_agree (H := sample_externals)
                         1 "0xAb" "0xCd" sample_info sample_ops ∅
                         (lookup_empty _)))).
  vm_compute. exact I.
Defined.

(** ** The info gauge and the registry *)

Section InfoGauge.
Context `{Externals}.
Import Prom.

Lemma apply_other cid oa ua (i : Chain.Info Point) o k (r1 r2 : Registry) :
  k = "drand_network_info" \/ k = "drand_updater_balance_wei" ->
  V2.apply (V2.metrics_of cid oa ua i) o r1 = Ok r2 -> r2 !! k = r1 !! k.
Proof.
  intros Hk.
  destruct o; cbn [V2.apply];
    unfold V2.SetDrandRound, V2.SetOracleRound, V2.IncSetRandomnessSuccess,
      V2.IncSetRandomnessFailure, Set_, Inc;
    cbn [V2.metrics_of V2.drandRoundTotal V2.oracleRoundTotal
         V2.setRandomnessSuccessTotal V2.setRandomnessFailureTotal];
    apply write_other; destruct Hk as [-> | ->]; done.
Qed.

Lemma balance_other cid oa ua (i : Chain.Info Point) wei k (r1 r2 : Registry) :
  k <> "drand_updater_balance_wei" ->
  V2.SetUpdaterBalance (V2.metrics_of cid oa ua i) wei r1 = Some (Ok r2) ->
  r2 !! k = r1 !! k.
Proof.
  intros Hk. unfold V2.SetUpdaterBalance.
  destruct (Big.SetString wei) as [balance|]; [|discriminate].
  destruct (Big.Float64 balance) as [b|msg]; [|discriminate].
  cbn [mbind result_bind rbind]. intros [= Hset]. revert Hset.
  unfold Set_. apply write_other. cbn [V2.metrics_of V2.updaterBalance]. done.
Qed.

Lemma elem_of_metric_names n :
  n ∈ V2.metric_names <->
  n = "drand_round_number_network" \/ n = "drand_round_number_oracle" \/
  n = "drand_set_randomness_success_total" \/
  n = "drand_set_randomness_failure_total" \/
  n = "drand_network_info" \/ n = "drand_updater_balance_wei".
Proof.
  unfold V2.metric_names. rewrite !elem_of_cons, elem_of_nil. tauto.
Qed.

Lemma NewMetrics_taken cid oa ua (i : Chain.Info Point) (reg : Registry) :
  is_Some (reg !! "drand_round_number_network") ->
  V2.NewMetrics cid oa ua i reg =
    Panic "duplicate metrics collector registration attempted".
Proof.
  intros [v Hv]. unfold V2.NewMetrics, NewGaugeVec, MustRegister.
  cbn [fqName]. by rewrite Hv.
Qed.
End InfoGauge.

(** C7. On a registry that holds none of its metrics, and for network
    parameters that print as UTF-8, [NewMetrics] returns, and the
    [drand_network_info] gauge then has the six label names and exactly one
    child: the one labelled with the chain hash, public key, period, scheme,
    genesis time and genesis seed of the given [chain.Info], holding the
    float 1. No later call into the metrics changes this gauge. *)
Theorem NewMetrics_network_info `{Externals}
    (chainID : Z) (oracleAddress updaterAddress : Address)
    (drandInfo : Chain.Info Point) (reg : Prom.Registry) :
  fresh reg V2.metric_names -> info_printable drandInfo = true ->
  exists m reg',
    V2.NewMetrics chainID oracleAddress updaterAddress drandInfo reg = Ok (m, reg') /\
    reg' !! "drand_network_info" =
      Some (Collectors.network_info {[ info_label_values drandInfo := F64.one ]}) /\
    Prom.variableLabels (Collectors.network_info ∅) =
      ["chain_hash"; "public_key"; "period"; "scheme"; "genesis_time"; "genesis_seed"] /\
    F64.to_Q F64.one = Some 1%Q /\
    (forall o r1 r2, V2.apply m o r1 = Ok r2 ->
       r2 !! "drand_network_info" = r1 !! "drand_network_info") /\
    (forall wei r1 r2, V2.SetUpdaterBalance m wei r1 = Some (Ok r2) ->
       r2 !! "drand_network_info" = r1 !! "drand_network_info").
Proof.
  intros Hf Hp. eexists _, _. split; [by apply V2_NewMetrics_ok|].
  split; [|split; [reflexivity|split; [reflexivity|split]]].
  - rewrite lookup_insert_ne by done. unfold Collectors.registered.
    by rewrite lookup_insert_eq.
  - intros o r1 r2. apply apply_other. by left.
  - intros wei r1 r2. by apply balance_other.
Qed.

Lemma NewMetrics_network_info_witness :
  fresh (∅ : Prom.Registry) V2.metric_names /\
  info_printable (H := sample_externals) sample_info = true /\
  exists m reg',
    V2.NewMetrics (H := sample_externals) 1 "0xAb" "0xCd" sample_info ∅ = Ok (m, reg') /\
    Prom.read reg' "drand_network_info"
      (info_label_values (H := sample_externals) sample_info) = Some F64.one.
Proof.
  assert (Hf : fresh (∅ : Prom.Registry) V2.metric_names).
  { unfold fresh, V2.metric_names. repeat constructor. }
  assert (Hp : info_printable (H := sample_externals) sample_info = true)
    by reflexivity.
  split; [exact Hf|]. split; [exact Hp|].
  destruct (NewMetrics_network_info (H := sample_externals)
              1 "0xAb" "0xCd" sample_info ∅ Hf Hp)
    as (m & reg' & Hnew & Hinfo & _).
  exists m, reg'. split; [exact Hnew|].
  unfold Prom.read. rewrite Hinfo. cbn [mbind option_bind Prom.metrics Collectors.network_info].
  apply lookup_singleton_eq.
Defined.

(** C8, as stated, fails: constructing a [Metrics] changes the process-wide
    registry, and constructing a second one panics. *)
Lemma NewMetrics_mutates_global_registry :
  exists m reg',
    V2.NewMetrics (H := sample_externals) 1 "0xAb" "0xCd" sample_info ∅ = Ok (m, reg') /\
    reg' <> ∅ /\
    V2.NewMetrics (H := sample_externals) 1 "0xAb" "0xCd" sample_info reg'
      = Panic "duplicate metrics collector registration attempted".
Proof.
  assert (Hf : fresh (∅ : Prom.Registry) V2.metric_names).
  { unfold fresh, V2.metric_names. repeat constructor. }
  eexists _, _. split; [by apply (V2_NewMetrics_ok (H := sample_externals))|].
  split.
  - apply insert_non_empty.
  - apply NewMetrics_taken. rewrite lookup_insert_ne by done.
    unfold Collectors.registered.
    repeat (rewrite lookup_insert_ne by done). rewrite lookup_insert_eq. by eexists.
Qed.

(** C8, amended. A [Metrics] is a value that [NewMetrics] constructs and the
    caller passes on, but its collectors live in the process-wide default
    registry: on a registry that holds none of the six metric names (and for
    printable network parameters) [NewMetrics] returns and has added exactly
    these six names to it, and any further [NewMetrics] on the resulting
    registry panics on the duplicate registration. *)
Theorem NewMetrics_registers_in_default_registry `{Externals}
    (chainID : Z) (oracleAddress updaterAddress : Address)
    (drandInfo : Chain.Info Point) (reg : Prom.Registry) :
  fresh reg V2.metric_names -> info_printable drandInfo = true ->
  exists m reg',
    V2.NewMetrics chainID oracleAddress updaterAddress drandInfo reg = Ok (m, reg') /\
    (forall n, n ∈ V2.metric_names -> reg !! n = None /\ is_Some (reg' !! n)) /\
    (forall n, n ∉ V2.metric_names -> reg' !! n = reg !! n) /\
    (forall chainID' oracleAddress' updaterAddress' drandInfo',
       V2.NewMetrics chainID' oracleAddress' updaterAddress' drandInfo' reg'
       = Panic "duplicate metrics collector registration attempted").
Proof.
  intros Hf Hp. eexists _, _. split; [by apply V2_NewMetrics_ok|].
  unfold Collectors.registered. split; [|split].
  - intros n Hn. split.
    + unfold fresh in Hf. rewrite Forall_forall in Hf. by apply Hf.
    + apply elem_of_metric_names in Hn.
      destruct Hn as [->|[->|[->|[->|[->| ->]]]]];
        repeat (rewrite lookup_insert_ne by done);
        rewrite lookup_insert_eq; by eexists.
  - intros n Hn. rewrite elem_of_metric_names in Hn.
    repeat (rewrite lookup_insert_ne by (intros <-; apply Hn; tauto)). done.
  - intros. apply NewMetrics_taken.
    repeat (rewrite lookup_insert_ne by done). rewrite lookup_insert_eq. by eexists.
Qed.

Lemma NewMetrics_registers_in_default_registry_witness :
  fresh (∅ : Prom.Registry) V2.metric_names /\
  info_printable (H := sample_externals) sample_info = true /\
  exists m reg',
    V2.NewMetrics (H := sample_externals) 1 "0xAb" "0xCd" sample_info ∅ = Ok (m, reg') /\
    V2.NewMetrics (H := sample_externals) 2 "0xEf" "0x01" sample_info reg'
      = Panic "duplicate metrics collector registration attempted".
Proof.
  assert (Hf : fresh (∅ : Prom.Registry) V2.metric_names).
  { unfold fresh, V2.metric_names. repeat constructor. }
  assert (Hp : info_printable (H := sample_externals) sample_info = true)
    by reflexivity.
  split; [exact Hf|]. split; [exact Hp|].
  destruct (NewMetrics_registers_in_default_registry (H := sample_externals)
              1 "0xAb" "0xCd" sample_info ∅ Hf Hp)
    as (m & reg' & Hnew & _ & _ & Hagain).
  exists m, reg'. split; [exact Hnew|apply Hagain].
Defined.

(** ** The balance gauge, continued *)

Section Balance.
Context `{Externals}.
Import Prom.

Lemma SetString_1e18 :
  Big.SetString "1000000000000000000"
  = Big.Returned (Some (Big.mkFloat 64 Big.finite false 16000000000000000000 60)).
Proof. vm_compute. reflexivity. Qed.

Lemma Float64_1e18 :
  Big.Float64 (Some (Big.mkFloat 64 Big.finite false 16000000000000000000 60))
  = Ok f64_1e18.
Proof. vm_compute. reflexivity. Qed.

Lemma to_Q_1e18 : F64.to_Q f64_1e18 = Some (1000000000000000000 # 1)%Q.
Proof. vm_compute. reflexivity. Qed.

(** A balance of one wei is the float 1.0: the unit of the gauge is the
    wei. *)
Example Float64_one_wei :
  Big.SetString "1" = Big.Returned (Some (Big.mkFloat 64 Big.finite false (2 ^ 63) 1)) /\
  Big.Float64 (Some (Big.mkFloat 64 Big.finite false (2 ^ 63) 1)) = Ok F64.one.
Proof. split; vm_compute; reflexivity. Qed.

Lemma not_near_one_1e18 : ~ F64.near_one f64_1e18 1.
Proof.
  intros (q & Hq & Hle & _). rewrite to_Q_1e18 in Hq. injection Hq as <-.
  vm_compute in Hle. by apply Hle.
Qed.

Lemma SetUpdaterBalance_1e18 (m : V2.Metrics) (reg : Registry) (v : Vec) :
  reg !! V2.updaterBalance m = Some v ->
  List.length (variableLabels v) = 3%nat ->
  GoStrings.ValidString (Address_Hex (V2.oracleAddress m)) = true ->
  GoStrings.ValidString (Address_Hex (V2.updaterAddress m)) = true ->
  exists reg',
    V2.SetUpdaterBalance m "1000000000000000000" reg = Some (Ok reg') /\
    read reg' (V2.updaterBalance m)
      [Fmt.Sprintf_d (V2.chainID m); Address_Hex (V2.oracleAddress m);
       Address_Hex (V2.updaterAddress m)] = Some f64_1e18.
Proof.
  intros Hv Hlen Ho Hu. unfold V2.SetUpdaterBalance.
  rewrite SetString_1e18, Float64_1e18. cbn [mbind result_bind rbind].
  erewrite Set_ok; [ | exact Hv | ].
  - eexists. split; [reflexivity|]. unfold read.
    rewrite lookup_insert_eq. cbn [mbind option_bind metrics set_metrics].
    apply lookup_insert_eq.
  - rewrite Hlen. unfold validateLabelValues. cbn [List.length Nat.eqb forallb].
    by rewrite ValidString_Sprintf_d, Ho, Hu.
Qed.
End Balance.

(** C1, as stated, fails: after [SetUpdaterBalance] with the balance
    "1000000000000000000" the gauge holds a float that is not 1.0, not even
    up to a tolerance of one whole unit. *)
Lemma balance_gauge_not_normalized :
  exists m reg1 reg2 bits,
    V2.NewMetrics (H := sample_externals) 1 "0xAb" "0xCd" sample_info ∅ = Ok (m, reg1) /\
    V2.SetUpdaterBalance m "1000000000000000000" reg1 = Some (Ok reg2) /\
    Prom.read reg2 "drand_updater_balance_wei" ["1"; "0xAb"; "0xCd"] = Some bits /\
    ~ F64.near_one bits 1.
Proof.
  assert (Hf : fresh (∅ : Prom.Registry) V2.metric_names).
  { unfold fresh, V2.metric_names. repeat constructor. }
  pose proof (V2_NewMetrics_ok (H := sample_externals) 1 "0xAb" "0xCd"
                sample_info ∅ Hf eq_refl) as Hnew.
  destruct (SetUpdaterBalance_1e18 (H := sample_externals)
              (V2.metrics_of (H := sample_externals) 1 "0xAb" "0xCd" sample_info)
              (<["drand_updater_balance_wei" := Collectors.updater_balance]>
                 (Collectors.registered (H := sample_externals) sample_info ∅))
              Collectors.updater_balance)
    as (reg2 & Hset & Hread);
    [apply lookup_insert_eq | reflexivity | reflexivity | reflexivity |].
  eexists _, _, reg2, f64_1e18. split; [exact Hnew|]. split; [exact Hset|].
  split; [exact Hread|]. apply not_near_one_1e18.
Qed.

(** C1, amended. [SetUpdaterBalance] records the balance in wei, as the
    gauge's name and help say: after a call with "1000000000000000000",
    through a [Metrics] whose balance gauge is registered with its three
    labels and whose addresses print as UTF-8, the child labelled with the
    chain id, the oracle address and the updater address holds the float
    1e18 exactly. *)
Theorem SetUpdaterBalance_records_wei `{Externals}
    (m : V2.Metrics) (reg : Prom.Registry) (v : Prom.Vec) :
  reg !! V2.updaterBalance m = Some v ->
  List.length (Prom.variableLabels v) = 3%nat ->
  GoStrings.ValidString (Address_Hex (V2.oracleAddress m)) = true ->
  GoStrings.ValidString (Address_Hex (V2.updaterAddress m)) = true ->
  exists reg',
    V2.SetUpdaterBalance m "1000000000000000000" reg = Some (Ok reg') /\
    Prom.read reg' (V2.updaterBalance m)
      [Fmt.Sprintf_d (V2.chainID m); Address_Hex (V2.oracleAddress m);
       Address_Hex (V2.updaterAddress m)] = Some f64_1e18 /\
    F64.to_Q f64_1e18 = Some (1000000000000000000 # 1)%Q /\
    Prom.fqName Collectors.updater_balance = "drand_updater_balance_wei" /\
    Prom.help Collectors.updater_balance
      = "Current balance of the updater address in wei".
Proof.
  intros Hv Hlen Ho Hu.
  destruct (SetUpdaterBalance_1e18 m reg v Hv Hlen Ho Hu) as (reg' & Hset & Hread).
  exists reg'. split; [exact Hset|]. split; [exact Hread|].
  split; [apply to_Q_1e18|]. split; reflexivity.
Qed.

Lemma SetUpdaterBalance_records_wei_witness :
  exists reg',
    V2.SetUpdaterBalance (H := sample_externals)
      (V2.metrics_of (H := sample_externals) 1 "0xAb" "0xCd" sample_info) "1000000000000000000"
      (<["drand_updater_balance_wei" := Collectors.updater_balance]>
         (Collectors.registered (H := sample_externals) sample_info ∅))
      = Some (Ok reg') /\
    Prom.read reg' "drand_updater_balance_wei" ["1"; "0xAb"; "0xCd"] = Some f64_1e18.
Proof.
  destruct (SetUpdaterBalance_records_wei (H := sample_externals)
              (V2.metrics_of (H := sample_externals) 1 "0xAb" "0xCd" sample_info)
              (<["drand_updater_balance_wei" := Collectors.updater_balance]>
                 (Collectors.registered (H := sample_externals) sample_info ∅))
              Collectors.updater_balance)
    as (reg' & Hset & Hread & _);
    [apply lookup_insert_eq | reflexivity | reflexivity | reflexivity |].
  exists reg'. split; [exact Hset | exact Hread].
Defined.

(** ** Calls that return *)

Section Returns.
Context `{Externals}.
Import Prom.

Lemma label_count_write (f : Z -> Z) h lvs (reg : Registry) v name n :
  reg !! h = Some v ->
  label_count reg name n ->
  label_count (<[h := set_metrics v (<[lvs := f (child v lvs)]> (metrics v))]> reg)
    name n.
Proof.
  intros Hh (w & Hw & Hn). unfold label_count.
  destruct (decide (h = name)) as [<-|Hne].
  - rewrite lookup_insert_eq. eexists. split; [reflexivity|].
    rewrite Hh in Hw. injection Hw as <-. exact Hn.
  - rewrite lookup_insert_ne by done. eauto.
Qed.

Lemma well_registered_write (f : Z -> Z) h lvs (reg : Registry) v :
  reg !! h = Some v -> well_registered reg ->
  well_registered
    (<[h := set_metrics v (<[lvs := f (child v lvs)]> (metrics v))]> reg).
Proof.
  intros Hh (H1 & H2 & H3 & H4 & H5).
  repeat split; by apply label_count_write.
Qed.

(** On a registry that holds the collectors, each of the four shared calls
    returns, whatever its argument. *)
Lemma apply_returns cid oa ua (i : Chain.Info Point) o (reg : Registry) :
  GoStrings.ValidString (Address_Hex oa) = true ->
  well_registered reg ->
  exists reg', V2.apply (V2.metrics_of cid oa ua i) o reg = Ok reg' /\
               well_registered reg'.
Proof.
  intros Ho Hw. pose proof Hw as ((v1 & Hv1 & Hn1) & (v2 & Hv2 & Hn2) &
    (v3 & Hv3 & Hn3) & (v4 & Hv4 & Hn4) & _).
  assert (Hlabels : forall n, (n = 2)%nat ->
            validateLabelValues [Fmt.Sprintf_d cid; Address_Hex oa] n = true).
  { intros n ->. unfold validateLabelValues. cbn [List.length Nat.eqb forallb].
    by rewrite ValidString_Sprintf_d, Ho. }
  destruct o; cbn [V2.apply];
    unfold V2.SetDrandRound, V2.SetOracleRound, V2.IncSetRandomnessSuccess,
      V2.IncSetRandomnessFailure;
    cbn [V2.metrics_of V2.drandRoundTotal V2.oracleRoundTotal
         V2.setRandomnessSuccessTotal V2.setRandomnessFailureTotal
         V2.chainHash V2.chainID V2.oracleAddress].
  - erewrite Set_ok; [ | exact Hv1 | ].
    + eexists. split; [reflexivity|].
      by apply (well_registered_write (fun _ => round)).
    + rewrite Hn1. unfold validateLabelValues, HashString.
      cbn [List.length Nat.eqb forallb]. by rewrite ValidString_hex.
  - erewrite Set_ok; [ | exact Hv2 | by apply Hlabels ].
    eexists. split; [reflexivity|].
    by apply (well_registered_write (fun _ => round)).
  - erewrite Inc_ok; [ | exact Hv3 | by apply Hlabels ].
    eexists. split; [reflexivity|].
    by apply (well_registered_write (fun n => (n + 1) mod 2 ^ 64)).
  - erewrite Inc_ok; [ | exact Hv4 | by apply Hlabels ].
    eexists. split; [reflexivity|].
    by apply (well_registered_write (fun n => (n + 1) mod 2 ^ 64)).
Qed.

(** So does [SetUpdaterBalance] whenever [SetString] accepts the balance:
    the nil pointer is its only way to panic. *)
Lemma SetUpdaterBalance_returns cid oa ua (i : Chain.Info Point) wei f
    (reg : Registry) :
  Big.SetString wei = Big.Returned (Some f) ->
  GoStrings.ValidString (Address_Hex oa) = true ->
  GoStrings.ValidString (Address_Hex ua) = true ->
  well_registered reg ->
  exists reg',
    V2.SetUpdaterBalance (V2.metrics_of cid oa ua i) wei reg = Some (Ok reg') /\
    well_registered reg'.
Proof.
  intros Hs Ho Hu Hw. pose proof Hw as (_ & _ & _ & _ & (v & Hv & Hn)).
  unfold V2.SetUpdaterBalance. rewrite Hs. cbn [Big.Float64 mbind result_bind rbind].
  cbn [V2.metrics_of V2.updaterBalance V2.chainID V2.oracleAddress V2.updaterAddress].
  erewrite Set_ok; [ | exact Hv | ].
  - eexists. split; [reflexivity|].
    by apply (well_registered_write (fun _ => Big.Float64_of f)).
  - rewrite Hn. unfold validateLabelValues. cbn [List.length Nat.eqb forallb].
    by rewrite ValidString_Sprintf_d, Ho, Hu.
Qed.

Lemma well_registered_new (i : Chain.Info Point) (reg : Registry) :
  well_registered
    (<["drand_updater_balance_wei" := Collectors.updater_balance]>
       (Collectors.registered i reg)).
Proof.
  unfold well_registered, label_count, Collectors.registered.
  repeat split;
    (eexists; split;
     [ repeat (rewrite lookup_insert_ne by done); apply lookup_insert_eq
     | reflexivity ]).
Qed.

Lemma exec_ops_returns cid oa ua (i : Chain.Info Point) ops :
  GoStrings.ValidString (Address_Hex oa) = true ->
  forall reg : Registry, well_registered reg ->
  returns_normally (exec_ops (V2.apply (V2.metrics_of cid oa ua i)) ops reg).
Proof.
  intros Ho. induction ops as [|o ops IH]; intros reg Hw; [exact I|].
  cbn [exec_ops].
  destruct (apply_returns cid oa ua i o reg Ho Hw) as (reg' & -> & Hw').
  cbn [mbind result_bind rbind]. by apply IH.
Qed.

(** A process that constructs its metrics on a fresh registry and then makes
    the four shared calls never panics in them. *)
Lemma session_returns cid oa ua (i : Chain.Info Point) ops (reg : Registry) :
  fresh reg V2.metric_names -> info_printable i = true ->
  GoStrings.ValidString (Address_Hex oa) = true ->
  returns_normally (V2.session cid oa ua i ops reg).
Proof.
  intros Hf Hp Ho. unfold V2.session. rewrite V2_NewMetrics_ok by done.
  cbn [mbind result_bind rbind]. apply exec_ops_returns; [done|].
  apply well_registered_new.
Qed.
End Returns.

(** ** The three services, continued *)

Section ErrGroupRuns.
Import Main.

Lemma reachable_group_exited : reachable group_exited.
Proof.
  unfold reachable.
  eapply rtc_l; [exact (step_health_fails started bind_error eq_refl eq_refl)|].
  eapply rtc_l; [exact (step_metrics_watcher group_health_failed eq_refl eq_refl eq_refl)|].
  eapply rtc_l; [exact (step_metrics_closed
    (mkGroup true (Some bind_error) Running (Returned (Some bind_error)) Running
       Waiting CalledShutdown InWait) eq_refl eq_refl eq_refl)|].
  eapply rtc_l; [exact (step_updater
    (mkGroup true (Some bind_error) Running (Returned (Some bind_error))
       (Returned None) Waiting CalledShutdown InWait) None eq_refl eq_refl)|].
  apply rtc_once.
  exact (step_wait
    (mkGroup true (Some bind_error) (Returned None) (Returned (Some bind_error))
       (Returned None) Waiting CalledShutdown InWait)
    None (Some bind_error) None eq_refl eq_refl eq_refl eq_refl).
Qed.

Lemma reachable_group_updater_done : reachable group_updater_done.
Proof. apply rtc_once. exact (step_updater started None eq_refl eq_refl). Qed.

Lemma step_g_err_stable g g' e : step g g' -> g_err g = Some e -> g_err g' = Some e.
Proof.
  intros Hs He. inversion Hs; subst; clear Hs; try exact He;
    rewrite He; try destruct ret; reflexivity.
Qed.

Lemma step_returned_stable g g' :
  step g g' ->
  (forall r, updater g = Returned r -> updater g' = Returned r) /\
  (forall r, health g = Returned r -> health g' = Returned r) /\
  (forall r, metricsSrv g = Returned r -> metricsSrv g' = Returned r).
Proof.
  intros Hs. inversion Hs; subst; clear Hs;
    repeat match goal with
           | |- context [finish ?a ?b ?c] => destruct (finish a b c)
           end; cbn;
    (split; [|split]); intros r Hr; try exact Hr; congruence.
Qed.

Lemma step_err_failed g g' :
  step g g' ->
  (forall e, g_err g = Some e -> failed g) ->
  forall e, g_err g' = Some e -> failed g'.
Proof.
  intros Hs Hg. pose proof (step_failed_stable g g' Hs) as Hstable.
  inversion Hs; subst; clear Hs; try destruct ret as [e0|];
    repeat match goal with
           | |- context [finish ?a ?b (Some ?c)] =>
             destruct (finish_some a b c) as [? ->]
           end;
    intros e1 He1;
    first [ by (eapply failed_updater; reflexivity)
          | by (eapply failed_health; reflexivity)
          | by (eapply failed_metrics; reflexivity)
          | (apply Hstable; cbn in He1; by eauto) ].
Qed.

Lemma g_err_failed g e : reachable g -> g_err g = Some e -> failed g.
Proof.
  unfold reachable. intros Hr. revert e.
  eapply (rtc_ind_r (fun g => forall e, g_err g = Some e -> failed g));
    [ | | exact Hr].
  - intros e He. discriminate He.
  - intros y z _ Hstep Hy. by apply (step_err_failed y).
Qed.

Lemma exited_failed g c : reachable g -> mainState g = Exited c -> failed g.
Proof.
  intros Hr Hc.
  destruct (reachable_quiet g Hr) as (_ & Hhw & _ & Hh & _ & Hex).
  destruct (Hex c Hc) as (r1 & r2 & r3 & H1 & H2 & H3).
  destruct r2 as [e|]; [by apply (failed_health g e)|]. auto.
Qed.
End ErrGroupRuns.

(** X1. [errGroup.Wait] returns only after the Updater and both servers have
    returned, and then one of them has returned an error: whenever [main]
    gets past [Wait], it ends in [log.Fatal] with status 1, never with
    status 0. *)
Theorem wait_returns_only_with_error (g : Main.group) (c : Z) :
  Main.reachable g -> Main.mainState g = Main.Exited c ->
  c = 1 /\ Main.failed g /\ is_Some (Main.g_err g) /\
  exists r1 r2 r3, Main.updater g = Main.Returned r1 /\
                   Main.health g = Main.Returned r2 /\
                   Main.metricsSrv g = Main.Returned r3.
Proof.
  intros Hr Hc.
  destruct (reachable_quiet g Hr) as (_ & Hhw & _ & Hh & _ & Hex).
  destruct (Hex c Hc) as (r1 & r2 & r3 & H1 & H2 & H3).
  assert (Hf : Main.failed g) by (by apply (exited_failed g c)).
  pose proof (reachable_inv g Hr) as Hinv.
  split; [by apply (exit_code_failed g)|]. split; [exact Hf|].
  split; [by apply (proj1 Hinv)|]. eauto.
Qed.

Lemma wait_returns_only_with_error_witness :
  Main.reachable group_exited /\ Main.failed group_exited.
Proof.
  split; [exact reachable_group_exited|].
  exact (proj1 (proj2 (wait_returns_only_with_error group_exited 1
                         reachable_group_exited eq_refl))).
Defined.

(** X2. As long as none of the three has returned an error, nothing stops
    the others: the context is not cancelled, neither [Shutdown] has been
    called, both servers are still serving and [main] is still in [Wait].
    This holds also after [updater.Start] has returned nil. *)
Theorem no_shutdown_without_failure (g : Main.group) :
  Main.reachable g -> ~ Main.failed g ->
  Main.ctx_done g = false /\ Main.g_err g = None /\
  Main.healthWatcher g = Main.Waiting /\ Main.metricsWatcher g = Main.Waiting /\
  Main.health g = Main.Running /\ Main.metricsSrv g = Main.Running /\
  Main.mainState g = Main.InWait.
Proof.
  intros Hr Hnf.
  destruct (reachable_quiet g Hr) as (Hc & Hhw & Hmw & Hh & Hm & Hex).
  assert (Hwait : Main.mainState g = Main.InWait).
  { destruct (Main.mainState g) as [|c] eqn:Hs; [reflexivity|].
    destruct Hnf. by apply (exited_failed g c). }
  assert (Hhw' : Main.healthWatcher g = Main.Waiting).
  { destruct (Main.healthWatcher g); [reflexivity|]. by destruct Hnf; auto. }
  assert (Hmw' : Main.metricsWatcher g = Main.Waiting).
  { destruct (Main.metricsWatcher g); [reflexivity|]. by destruct Hnf; auto. }
  repeat split; try done.
  - destruct (Main.ctx_done g); [|reflexivity]. by destruct Hnf; auto.
  - destruct (Main.g_err g) as [e|] eqn:He; [|reflexivity].
    destruct Hnf. by apply (g_err_failed g e).
  - destruct (Main.health g) as [|[e|]] eqn:Hs; [reflexivity| |].
    + destruct Hnf. by apply (failed_health g e).
    + rewrite (Hh eq_refl) in Hhw'. discriminate Hhw'.
  - destruct (Main.metricsSrv g) as [|[e|]] eqn:Hs; [reflexivity| |].
    + destruct Hnf. by apply (failed_metrics g e).
    + rewrite (Hm eq_refl) in Hmw'. discriminate Hmw'.
Qed.

Lemma no_shutdown_without_failure_witness :
  Main.reachable group_updater_done /\ ~ Main.failed group_updater_done /\
  Main.health group_updater_done = Main.Running /\
  Main.ctx_done group_updater_done = false.
Proof.
  assert (Hnf : ~ Main.failed group_updater_done).
  { intros [[e He]|[[e He]|[e He]]]; discriminate He. }
  pose proof (no_shutdown_without_failure group_updater_done
                reachable_group_updater_done Hnf) as (Hc & _ & _ & _ & Hh & _).
  split; [exact reachable_group_updater_done|]. split; [exact Hnf|].
  split; [exact Hh | exact Hc].
Defined.

(** X3. The error [errgroup] records is the first one: once an error is
    recorded, no later step replaces it, so a second failure does not change
    what [Wait] returns and [log.Fatal] reports. What a goroutine has
    returned is never changed either. *)
Theorem first_error_is_kept (g g' : Main.group) :
  rtc Main.step g g' ->
  (forall e, Main.g_err g = Some e -> Main.g_err g' = Some e) /\
  (forall r, Main.updater g = Main.Returned r -> Main.updater g' = Main.Returned r) /\
  (forall r, Main.health g = Main.Returned r -> Main.health g' = Main.Returned r) /\
  (forall r, Main.metricsSrv g = Main.Returned r ->
             Main.metricsSrv g' = Main.Returned r).
Proof.
  induction 1 as [g|g g1 g' Hstep _ IH]; [by repeat split|].
  destruct IH as (IHe & IHu & IHh & IHm).
  destruct (step_returned_stable g g1 Hstep) as (Hu & Hh & Hm).
  repeat split; intros; eauto using step_g_err_stable.
Qed.

Lemma first_error_is_kept_witness :
  rtc Main.step group_health_failed group_both_failed /\
  Main.g_err group_both_failed = Some bind_error.
Proof.
  assert (Hs : rtc Main.step group_health_failed group_both_failed).
  { apply rtc_once.
    exact (Main.step_metrics_fails group_health_failed
             "listen tcp :9090: bind: permission denied" eq_refl eq_refl). }
  split; [exact Hs|].
  exact (proj1 (first_error_is_kept group_health_failed group_both_failed Hs)
           bind_error eq_refl).
Defined.

(** ** Start-up, continued *)

Ltac startup_split w :=
  unfold Main.main;
  destruct (Main.envconfig_Process w) as [cfg|?]; simpl;
  [ destruct (Hex.DecodeString (Main.ChainHash cfg)) as [chainHash|?]; simpl;
    [ destruct (Main.client_New w (Main.DrandURLs cfg) chainHash); simpl;
      [| destruct (Main.ethclient_Dial w (Main.RPC cfg)); simpl;
         [| destruct (Main.binding_NewBinding w
                        (Main.common_HexToAddress w (Main.DrandOracleAddress cfg)));
            simpl;
            [| destruct (Main.parseKey (Main.SignerPrivateKey cfg)) as [sk|?]; simpl;
               [ destruct (Main.parseKey (Main.SenderPrivateKey cfg)) as [pk|?]; simpl;
                 [ destruct (Main.service_NewUpdater w
                               (Main.SetRandomnessGasLimit cfg) (Main.ChainID cfg)
                               (Main.common_HexToAddress w (Main.DrandOracleAddress cfg))
                               (Main.GenesisRound cfg) sk pk); simpl |] |] ] ] ] |] |].

(** X4. Besides its log lines, a run of [main] up to [Wait] does one of two
    things: it ends in a single [log.Fatal] and launches no goroutine at
    all, or it launches the Updater, the health server and the metrics
    server, each once and in this order, and logs no fatal error. *)
Theorem main_fatal_or_three_services `{Externals} (w : Main.World) :
  (exists msg, actions (Main.main w) = [Main.FatalExit msg] /\
               last (Main.main w) = Some (Main.FatalExit msg)) \/
  (actions (Main.main w)
     = [Main.Go Main.TUpdater; Main.Go Main.THealth; Main.Go Main.TMetrics] /\
   last (Main.main w) = Some (Main.Go Main.TMetrics)).
Proof.
  startup_split w; first [ by (left; eexists) | by right ].
Qed.

(** X5. The health endpoint ignores the request method and matches the path
    exactly: a request is answered by the program's handler if and only if
    its path is [/health]. The client then receives status 200 whatever
    the method; the body is "OK" for GET, POST and every other method but
    HEAD, for which the server sends no body. *)
Theorem health_answer_by_method (r : Main.Request) (resp : Main.ResponseWriter) :
  Main.answer Main.healthMux r = Some resp <->
  Main.Path r = "/health" /\
  resp = Main.mkRW true 200
           (if String.eqb (Main.Method r) Main.MethodHead then "" else "OK").
Proof.
  unfold Main.answer, Main.ServeHTTP, Main.mux_handler, Main.healthMux.
  cbn [List.find fst].
  destruct (String.eqb_spec "/health" (Main.Path r)) as [Heq|Hne]; cbn.
  - unfold Main.sent.
    destruct (String.eqb (Main.Method r) Main.MethodHead); cbn; split.
    + intros [= <-]. by split.
    + intros [_ ->]. reflexivity.
    + intros [= <-]. by split.
    + intros [_ ->]. reflexivity.
  - split; [discriminate|]. intros [Hp _]. by destruct Hne.
Qed.

(** ** Hexadecimal strings *)

Section HexFacts.

Lemma string_pair_ind (P : string -> Prop) :
  P EmptyString ->
  (forall c, P (String c EmptyString)) ->
  (forall a b r, P r -> P (String a (String b r))) ->
  forall s, P s.
Proof.
  intros H0 H1 H2 s.
  assert (Hboth : P s /\ forall c, P (String c s)).
  { induction s as [|a s [IHs IHc]]; [by split|].
    split; [apply IHc|]. intros c. by apply H2. }
  apply Hboth.
Qed.

Lemma Decode_cons2 a b r :
  Hex.Decode (String a (String b r)) =
    match Hex.fromHexChar a with
    | None => inr (Hex.InvalidByteError a)
    | Some x =>
      match Hex.fromHexChar b with
      | None => inr (Hex.InvalidByteError b)
      | Some y =>
        match Hex.Decode r with
        | inl bs => inl (Hex.mkbyte (Z.lor (Z.shiftl x 4) y) :: bs)
        | inr e => inr e
        end
      end
    end.
Proof. reflexivity. Qed.

Lemma Decode_accepts (s : string) :
  (exists bs, Hex.Decode s = inl bs) <->
  Hex.is_hex_string s = true /\ even_length s = true.
Proof.
  induction s as [| c | a b r IH] using string_pair_ind.
  - split; [by split | by exists []].
  - split.
    + intros [bs Hbs]. cbn in Hbs. destruct (Hex.fromHexChar c); discriminate Hbs.
    + intros [_ He]. discriminate He.
  - rewrite Decode_cons2. cbn [Hex.is_hex_string even_length]. unfold Hex.is_hex_digit.
    destruct (Hex.fromHexChar a) as [x|]; [|split; [by intros [? ?] | by intros [? ?]]].
    destruct (Hex.fromHexChar b) as [y|]; [|split; [by intros [? ?] | by intros [? ?]]].
    cbn [andb]. rewrite <- IH. split.
    + intros [bs Hbs]. destruct (Hex.Decode r) as [bs'|]; [by eexists | discriminate Hbs].
    + intros [bs ->]. by eexists.
Qed.

Lemma Decode_length (s : string) (bs : list byte) :
  Hex.Decode s = inl bs -> String.length s = (2 * List.length bs)%nat.
Proof.
  revert bs. induction s as [| c | a b r IH] using string_pair_ind; intros bs.
  - by intros [= <-].
  - cbn. destruct (Hex.fromHexChar c); discriminate.
  - rewrite Decode_cons2.
    destruct (Hex.fromHexChar a); [|discriminate].
    destruct (Hex.fromHexChar b); [|discriminate].
    destruct (Hex.Decode r) as [bs'|]; [|discriminate].
    intros [= <-]. cbn [String.length List.length]. rewrite (IH bs' eq_refl). lia.
Qed.

Lemma Decode_Encode_byte (b : byte) (r : string) :
  Hex.Decode (String (Hex.hextable (Z.shiftr (Z.of_N (Byte.to_N b)) 4))
                (String (Hex.hextable (Z.land (Z.of_N (Byte.to_N b)) 15)) r))
  = match Hex.Decode r with
    | inl bs => inl (b :: bs)
    | inr e => inr e
    end.
Proof. rewrite Decode_cons2. destruct b; reflexivity. Qed.

Lemma Decode_Encode (bs : list byte) :
  Hex.DecodeString (Hex.EncodeToString bs) = inl bs.
Proof.
  unfold Hex.DecodeString. induction bs as [|b bs IH]; [reflexivity|].
  cbn [Hex.EncodeToString]. by rewrite Decode_Encode_byte, IH.
Qed.
End HexFacts.

(** X6. With the configuration read, [main] stops at "Failed to decode chain
    hash", before it creates any client, exactly when [CHAIN_HASH] is not an
    even number of hex digits. The empty chain hash is accepted. *)
Theorem chain_hash_must_be_hex `{Externals} (w : Main.World) (cfg : Main.Config) :
  Main.envconfig_Process w = inl cfg ->
  (Main.main w = [Main.FatalExit "Failed to decode chain hash"] <->
   ~ (Hex.is_hex_string (Main.ChainHash cfg) = true /\
      even_length (Main.ChainHash cfg) = true)).
Proof.
  intros Hcfg. unfold Main.main. rewrite Hcfg. unfold Hex.DecodeString.
  pose proof (Decode_accepts (Main.ChainHash cfg)) as Hacc.
  destruct (Hex.Decode (Main.ChainHash cfg)) as [bs|e].
  - split; [discriminate|]. intros Hn. destruct Hn. apply Hacc. by exists bs.
  - split; [|reflexivity]. intros _ Hok. apply Hacc in Hok as [bs Hbs].
    discriminate Hbs.
Qed.

Lemma chain_hash_must_be_hex_witness :
  Main.main world_odd_hash = [Main.FatalExit "Failed to decode chain hash"].
Proof.
  eapply (chain_hash_must_be_hex (H := sample_externals) world_odd_hash);
    [reflexivity|].
  intros [_ Hev]. discriminate Hev.
Defined.

Section LabelFacts.
Context `{Externals}.

Lemma EncodeToString_inj (b1 b2 : list byte) :
  Hex.EncodeToString b1 = Hex.EncodeToString b2 -> b1 = b2.
Proof.
  intros Heq. pose proof (Decode_Encode b1) as H1. rewrite Heq, Decode_Encode in H1.
  by injection H1.
Qed.

Lemma to_int_proper (n : Z) :
  Z.to_int n <> Decimal.Pos Decimal.Nil /\ Z.to_int n <> Decimal.Neg Decimal.Nil.
Proof.
  destruct n as [|p|p]; cbn; split; try discriminate;
    intros [= Hp]; by apply (DecimalPos.Unsigned.to_uint_nonnil p).
Qed.

Lemma Sprintf_d_inj (n1 n2 : Z) : Fmt.Sprintf_d n1 = Fmt.Sprintf_d n2 -> n1 = n2.
Proof.
  unfold Fmt.Sprintf_d. intros Heq. apply DecimalZ.to_int_inj.
  destruct (to_int_proper n1) as [P1 N1]. destruct (to_int_proper n2) as [P2 N2].
  pose proof (NilZero.isi (Z.to_int n1) P1 N1) as H1.
  rewrite Heq, (NilZero.isi (Z.to_int n2) P2 N2) in H1. by injection H1.
Qed.
End LabelFacts.

(** X7. The hexadecimal label values can be decoded again: the [chain_hash]
    label decodes to the hash of the [chain.Info] and the [genesis_seed]
    label to its seed. Hence two networks that differ in hash, scheme,
    genesis time or genesis seed never get the same labels on
    [drand_network_info], and two chain hashes never share a child of
    [drand_round_number_network]. *)
Theorem info_labels_identify_network `{Externals} (i : Chain.Info Point) :
  Hex.DecodeString (HashString i) = inl (Info_Hash i) /\
  Hex.DecodeString (Hex.EncodeToString (Chain.GenesisSeed i))
    = inl (Chain.GenesisSeed i) /\
  forall i' : Chain.Info Point,
    info_label_values i = info_label_values i' ->
    Info_Hash i = Info_Hash i' /\ Chain.Scheme i = Chain.Scheme i' /\
    Chain.GenesisTime i = Chain.GenesisTime i' /\
    Chain.GenesisSeed i = Chain.GenesisSeed i'.
Proof.
  split; [apply Decode_Encode|]. split; [apply Decode_Encode|].
  intros i'. unfold info_label_values, HashString. intros [= Hh _ _ Hs Ht Hg].
  split; [by apply EncodeToString_inj|]. split; [exact Hs|].
  split; [by apply Sprintf_d_inj | by apply EncodeToString_inj].
Qed.

Section KeyFacts.
Import GoStrings.

Lemma TrimPrefix_0x_length (s : string) :
  String.length (TrimPrefix s "0x") = String.length s \/
  (HasPrefix s "0x" = true /\
   String.length s = (2 + String.length (TrimPrefix s "0x"))%nat).
Proof.
  unfold TrimPrefix. destruct (HasPrefix s "0x") eqn:Hp; [right|by left].
  split; [reflexivity|].
  destruct s as [|a [|b r]]; cbn in Hp; try discriminate Hp.
  - by rewrite andb_false_r in Hp.
  - reflexivity.
Qed.

Lemma ToECDSA_range (d : list byte) (key : Crypto.PrivateKey) :
  Crypto.ToECDSA d = inl key ->
  List.length d = 32%nat /\ 0 < Crypto.D key < Crypto.secp256k1N.
Proof.
  unfold Crypto.ToECDSA.
  destruct (8 * Z.of_nat (List.length d) =? 256) eqn:Hlen; [|discriminate].
  cbn [negb]. cbv zeta.
  destruct (Crypto.secp256k1N <=? Crypto.SetBytes d) eqn:Hhi; [discriminate|].
  destruct (Crypto.SetBytes d <=? 0) eqn:Hlo; [discriminate|].
  intros [= <-]. cbn [Crypto.D].
  apply Z.eqb_eq in Hlen. apply Z.leb_gt in Hhi. apply Z.leb_gt in Hlo.
  split; lia.
Qed.
End KeyFacts.

(** X8. A private key that [main] accepts is 64 hex digits, or "0x" followed
    by 64 hex digits, and its scalar lies strictly between 0 and the order
    of secp256k1: the zero key, a key of another length and a key at or
    above the group order stop the process at start-up. *)
Theorem parseKey_accepts_valid_scalars (s : string) (key : Crypto.PrivateKey) :
  Main.parseKey s = inl key ->
  0 < Crypto.D key < Crypto.secp256k1N /\
  Hex.is_hex_string (GoStrings.TrimPrefix s "0x") = true /\
  (String.length s = 64%nat \/
   (GoStrings.HasPrefix s "0x" = true /\ String.length s = 66%nat)).
Proof.
  unfold Main.parseKey, Crypto.HexToECDSA, Hex.DecodeString.
  destruct (Hex.Decode (GoStrings.TrimPrefix s "0x")) as [bs|[c|]] eqn:Hdec;
    [|discriminate|discriminate].
  intros Hkey. apply ToECDSA_range in Hkey as [Hlen Hrange].
  split; [exact Hrange|]. split.
  - apply (Decode_accepts (GoStrings.TrimPrefix s "0x")). by exists bs.
  - apply Decode_length in Hdec. rewrite Hlen in Hdec.
    destruct (TrimPrefix_0x_length s) as [Heq|[Hp Heq]].
    + left. lia.
    + right. split; [exact Hp|]. lia.
Qed.

Lemma parseKey_accepts_valid_scalars_witness :
  0 < 0x4c0883a69102937d6231471b5dbb6204fe5129617082792ae468d01a3f362318
    < Crypto.secp256k1N.
Proof.
  exact (proj1 (parseKey_accepts_valid_scalars ("0x" +:+ sample_key)
    {| Crypto.D := 0x4c0883a69102937d6231471b5dbb6204fe5129617082792ae468d01a3f362318 |}
    ltac:(vm_compute; reflexivity))).
Defined.

(** X9. Only the exact prefix "0x" is removed, and only once: a key written
    with "0X", or with the prefix twice, reaches [HexToECDSA] with the letter
    still in it and is rejected as an invalid hex character, whatever
    follows. *)
Theorem parseKey_other_prefixes_rejected (k : string) :
  Main.parseKey ("0X" +:+ k) = inr (Crypto.ErrInvalidHexChar "X") /\
  Main.parseKey ("0x0x" +:+ k) = inr (Crypto.ErrInvalidHexChar "x").
Proof.
  unfold Main.parseKey, Crypto.HexToECDSA, Hex.DecodeString. split.
  - change (GoStrings.TrimPrefix ("0X" +:+ k) "0x") with (String "0" (String "X" k)).
    by rewrite Decode_cons2.
  - change (GoStrings.TrimPrefix ("0x0x" +:+ k) "0x") with (String "0" (String "x" k)).
    by rewrite Decode_cons2.
Qed.

(** ** One call, one child *)

Section Writes.
Context `{Externals}.
Import Prom.

Lemma apply_as_write (m : V2.Metrics) (o : op) (reg : Registry) :
  V2.apply m o reg =
    (reg' ← WithLabelValues (target m o).1 (target m o).2 reg;
     Ok (update_child (target m o).1 (target m o).2 (new_value o) reg')).
Proof. destruct o; reflexivity. Qed.

Lemma write_inv (f : Z -> Z) h lvs (reg reg2 : Registry) :
  (reg' ← WithLabelValues h lvs reg; Ok (update_child h lvs f reg')) = Ok reg2 ->
  exists v, reg !! h = Some v /\
            validateLabelValues lvs (List.length (variableLabels v)) = true /\
            reg2 = <[h := set_metrics v (<[lvs := f (child v lvs)]> (metrics v))]> reg.
Proof.
  intros Hw. destruct (reg !! h) as [v|] eqn:Hh.
  - destruct (validateLabelValues lvs (List.length (variableLabels v))) eqn:Hv.
    + rewrite (write_child f h lvs reg v Hh Hv) in Hw. injection Hw as <-. eauto.
    + unfold WithLabelValues in Hw. rewrite Hh, Hv in Hw. discriminate Hw.
  - unfold WithLabelValues in Hw. rewrite Hh in Hw. discriminate Hw.
Qed.

Lemma read_child (reg : Registry) h lvs v :
  reg !! h = Some v -> default 0 (read reg h lvs) = child v lvs.
Proof. intros Hh. unfold read, child. by rewrite Hh. Qed.

Lemma read_write_same (reg : Registry) h lvs v x :
  read (<[h := set_metrics v (<[lvs := x]> (metrics v))]> reg) h lvs = Some x.
Proof.
  unfold read. rewrite lookup_insert_eq. cbn [mbind option_bind metrics set_metrics].
  apply lookup_insert_eq.
Qed.

Lemma read_write_other (reg : Registry) h lvs v x h' lvs' :
  reg !! h = Some v -> (h', lvs') <> (h, lvs) ->
  read (<[h := set_metrics v (<[lvs := x]> (metrics v))]> reg) h' lvs'
  = read reg h' lvs'.
Proof.
  intros Hh Hne. unfold read. destruct (decide (h = h')) as [<-|Hn].
  - rewrite lookup_insert_eq, Hh. cbn [mbind option_bind metrics set_metrics].
    apply lookup_insert_ne. intros <-. by destruct Hne.
  - by rewrite lookup_insert_ne.
Qed.

Lemma descriptor_write (reg : Registry) h lvs v x name :
  reg !! h = Some v ->
  (fun w => (fqName w, help w, variableLabels w, vkind w))
    <$> (<[h := set_metrics v (<[lvs := x]> (metrics v))]> reg) !! name
  = (fun w => (fqName w, help w, variableLabels w, vkind w)) <$> reg !! name.
Proof.
  intros Hh. destruct (decide (h = name)) as [<-|Hn].
  - by rewrite lookup_insert_eq, Hh.
  - by rewrite lookup_insert_ne.
Qed.
End Writes.

(** X10. A shared call that returns has written exactly one child: the one
    its collector holds for the label values of this [Metrics]. That child
    now holds the argument ([SetDrandRound], [SetOracleRound]) or one more
    than before, from zero, modulo 2^64 (the two counters). Every other
    child of every collector reads as before, and no collector's name,
    help, label names or kind has changed. *)
Theorem call_writes_one_child `{Externals}
    (m : V2.Metrics) (o : op) (reg reg' : Prom.Registry) :
  V2.apply m o reg = Ok reg' ->
  Prom.read reg' (target m o).1 (target m o).2
    = Some (new_value o (default 0 (Prom.read reg (target m o).1 (target m o).2))) /\
  (forall name lvs, (name, lvs) <> target m o ->
     Prom.read reg' name lvs = Prom.read reg name lvs) /\
  (forall name,
     (fun w => (Prom.fqName w, Prom.help w, Prom.variableLabels w, Prom.vkind w))
       <$> reg' !! name
     = (fun w => (Prom.fqName w, Prom.help w, Prom.variableLabels w, Prom.vkind w))
       <$> reg !! name).
Proof.
  rewrite apply_as_write. intros Hw.
  apply write_inv in Hw as (v & Hh & _ & ->).
  split; [|split].
  - rewrite (read_child reg _ _ v Hh). apply read_write_same.
  - intros name lvs Hne. apply read_write_other; [exact Hh|].
    by destruct (target m o).
  - intros name. by apply descriptor_write.
Qed.

Lemma call_writes_one_child_witness :
  exists reg',
    V2.apply sample_metrics OpIncSetRandomnessSuccess sample_registry = Ok reg' /\
    Prom.read reg' "drand_set_randomness_success_total" ["1"; "0xAb"] = Some 1.
Proof.
  destruct (apply_returns (H := sample_externals) 1 "0xAb" "0xCd" sample_info
              OpIncSetRandomnessSuccess sample_registry eq_refl
              (well_registered_new (H := sample_externals) sample_info ∅))
    as (reg' & Happly & _).
  exists reg'. split; [exact Happly|].
  exact (proj1 (call_writes_one_child (H := sample_externals) sample_metrics
                  OpIncSetRandomnessSuccess sample_registry reg' Happly)).
Defined.

(** ** The metrics follow the calls *)

Section History.
Context `{Externals}.
Import Prom.

Lemma apply_effect (m : V2.Metrics) (o : op) (reg reg' : Registry) :
  V2.apply m o reg = Ok reg' ->
  read reg' (target m o).1 (target m o).2
    = Some (new_value o (default 0 (read reg (target m o).1 (target m o).2))) /\
  (forall name lvs, (name, lvs) <> target m o ->
     read reg' name lvs = read reg name lvs).
Proof.
  rewrite apply_as_write. intros Hw.
  apply write_inv in Hw as (v & Hh & _ & ->). split.
  - rewrite (read_child reg _ _ v Hh). apply read_write_same.
  - intros name lvs Hne. apply read_write_other; [exact Hh|].
    by destruct (target m o).
Qed.

Lemma exec_ops_cons (m : V2.Metrics) o ops (reg reg' : Registry) :
  exec_ops (V2.apply m) (o :: ops) reg = Ok reg' ->
  exists r1, V2.apply m o reg = Ok r1 /\ exec_ops (V2.apply m) ops r1 = Ok reg'.
Proof.
  cbn [exec_ops]. destruct (V2.apply m o reg) as [r1|msg]; [|discriminate].
  cbn [mbind result_bind rbind]. eauto.
Qed.

(** A gauge child written by the calls that [sel] picks holds the argument
    of the last of them. *)
Lemma gauge_follows (m : V2.Metrics) (sel : op -> option Z) name lvs :
  (forall o x, sel o = Some x ->
     target m o = (name, lvs) /\ forall old, new_value o old = x) ->
  (forall o, sel o = None -> target m o <> (name, lvs)) ->
  forall ops (reg reg' : Registry),
    exec_ops (V2.apply m) ops reg = Ok reg' ->
    read reg' name lvs =
      match last (omap sel ops) with
      | Some x => Some x
      | None => read reg name lvs
      end.
Proof.
  intros Hsel Hnot. induction ops as [|o ops IH]; intros reg reg' Hexec.
  - injection Hexec as <-. reflexivity.
  - apply exec_ops_cons in Hexec as (r1 & Happly & Hexec).
    rewrite (IH r1 reg' Hexec).
    change (omap sel (o :: ops))
      with (match sel o with Some y => y :: omap sel ops | None => omap sel ops end).
    destruct (apply_effect m o reg r1 Happly) as [Hsame Hother].
    destruct (sel o) as [x|] eqn:Hs.
    + destruct (Hsel o x Hs) as [Ht Hx]. rewrite Ht in Hsame. cbn [fst snd] in Hsame.
      rewrite Hx in Hsame. rewrite last_cons.
      destruct (last (omap sel ops)); [reflexivity|exact Hsame].
    + rewrite (Hother name lvs); [reflexivity|].
      intros Heq. by apply (Hnot o Hs).
Qed.

(** A counter child incremented by the calls that [sel] picks has advanced
    by their number. *)
Lemma counter_follows (m : V2.Metrics) (sel : op -> bool) name lvs :
  (forall o, sel o = true ->
     target m o = (name, lvs) /\ forall old, new_value o old = (old + 1) mod 2 ^ 64) ->
  (forall o, sel o = false -> target m o <> (name, lvs)) ->
  forall ops (reg reg' : Registry),
    exec_ops (V2.apply m) ops reg = Ok reg' ->
    read reg' name lvs =
      if count_ops sel ops =? 0 then read reg name lvs
      else Some ((default 0 (read reg name lvs) + count_ops sel ops) mod 2 ^ 64).
Proof.
  intros Hsel Hnot. unfold count_ops.
  induction ops as [|o ops IH]; intros reg reg' Hexec.
  - injection Hexec as <-. reflexivity.
  - apply exec_ops_cons in Hexec as (r1 & Happly & Hexec).
    rewrite (IH r1 reg' Hexec). cbn [List.filter].
    destruct (apply_effect m o reg r1 Happly) as [Hsame Hother].
    destruct (sel o) eqn:Hs.
    + destruct (Hsel o Hs) as [Ht Hx]. rewrite Ht in Hsame. cbn [fst snd] in Hsame.
      rewrite Hx in Hsame. rewrite Hsame. cbn [default List.length].
      set (k := List.length (List.filter sel ops)).
      replace (Z.of_nat (S k) =? 0) with false by (symmetry; apply Z.eqb_neq; lia).
      destruct (Z.of_nat k =? 0) eqn:Hk.
      * apply Z.eqb_eq in Hk. unfold id. f_equal. f_equal. lia.
      * f_equal. unfold id. rewrite Zplus_mod_idemp_l. f_equal. lia.
    + rewrite (Hother name lvs); [reflexivity|].
      intros Heq. by apply (Hnot o Hs).
Qed.

Lemma read_new (i : Chain.Info Point) (reg : Registry) name lvs :
  name = "drand_round_number_network" \/ name = "drand_round_number_oracle" \/
  name = "drand_set_randomness_success_total" \/
  name = "drand_set_randomness_failure_total" \/
  name = "drand_updater_balance_wei" ->
  read (<["drand_updater_balance_wei" := Collectors.updater_balance]>
          (Collectors.registered i reg)) name lvs = None.
Proof.
  unfold read, Collectors.registered.
  intros [->|[->|[->|[->| ->]]]];
    repeat (rewrite lookup_insert_ne by done); rewrite lookup_insert_eq;
    cbn [mbind option_bind metrics]; apply lookup_empty.
Qed.

Lemma session_result cid oa ua (i : Chain.Info Point) ops (reg : Registry) :
  fresh reg V2.metric_names -> info_printable i = true ->
  GoStrings.ValidString (Address_Hex oa) = true ->
  exists reg',
    V2.session cid oa ua i ops reg = Ok reg' /\
    exec_ops (V2.apply (V2.metrics_of cid oa ua i)) ops
      (<["drand_updater_balance_wei" := Collectors.updater_balance]>
         (Collectors.registered i reg)) = Ok reg'.
Proof.
  intros Hf Hp Ho. unfold V2.session. rewrite V2_NewMetrics_ok by done.
  cbn [mbind result_bind rbind].
  pose proof (exec_ops_returns cid oa ua i ops Ho _ (well_registered_new i reg)) as Hr.
  destruct (exec_ops _ ops _) as [reg'|msg]; [eauto | destruct Hr].
Qed.
End History.

(** X11. In a process that constructs its metrics on a fresh registry and
    then makes any sequence of the shared calls, all calls return, and a
    scrape reads for [drand_round_number_network] the argument of the last
    [SetDrandRound] and for [drand_round_number_oracle] the argument of the
    last [SetOracleRound]; a gauge that was never set has no child. *)
Theorem gauges_hold_last_value `{Externals}
    (chainID : Z) (oracleAddress updaterAddress : Address)
    (drandInfo : Chain.Info Point) (ops : list op) (reg : Prom.Registry) :
  fresh reg V2.metric_names -> info_printable drandInfo = true ->
  GoStrings.ValidString (Address_Hex oracleAddress) = true ->
  exists reg',
    V2.session chainID oracleAddress updaterAddress drandInfo ops reg = Ok reg' /\
    Prom.read reg' "drand_round_number_network" [HashString drandInfo]
      = last_drand_round ops /\
    Prom.read reg' "drand_round_number_oracle"
      [Fmt.Sprintf_d chainID; Address_Hex oracleAddress]
      = last_oracle_round ops.
Proof.
  intros Hf Hp Ho.
  destruct (session_result chainID oracleAddress updaterAddress drandInfo ops reg
              Hf Hp Ho) as (reg' & Hs & Hexec).
  exists reg'. split; [exact Hs|]. split.
  - rewrite (gauge_follows _
      (fun o => match o with OpSetDrandRound r => Some r | _ => None end)
      "drand_round_number_network" [HashString drandInfo]) with (3 := Hexec).
    + unfold last_drand_round. rewrite read_new by auto.
      by destruct (last _).
    + intros [] x [= <-]. by split.
    + intros [] Hn; try discriminate Hn; cbn; intros [= ?].
  - rewrite (gauge_follows _
      (fun o => match o with OpSetOracleRound r => Some r | _ => None end)
      "drand_round_number_oracle"
      [Fmt.Sprintf_d chainID; Address_Hex oracleAddress]) with (3 := Hexec).
    + unfold last_oracle_round. rewrite read_new by auto.
      by destruct (last _).
    + intros [] x [= <-]. by split.
    + intros [] Hn; try discriminate Hn; cbn; intros [= ?].
Qed.

(** X12. In the same process a scrape reads for
    [drand_set_randomness_success_total] the number of
    [IncSetRandomnessSuccess] calls and for
    [drand_set_randomness_failure_total] the number of
    [IncSetRandomnessFailure] calls, modulo 2^64; neither counter has a
    child before its first increment, and neither is moved by the other or
    by the gauges. *)
Theorem counters_count_calls `{Externals}
    (chainID : Z) (oracleAddress updaterAddress : Address)
    (drandInfo : Chain.Info Point) (ops : list op) (reg : Prom.Registry) :
  fresh reg V2.metric_names -> info_printable drandInfo = true ->
  GoStrings.ValidString (Address_Hex oracleAddress) = true ->
  exists reg',
    V2.session chainID oracleAddress updaterAddress drandInfo ops reg = Ok reg' /\
    Prom.read reg' "drand_set_randomness_success_total"
      [Fmt.Sprintf_d chainID; Address_Hex oracleAddress]
      = counter_reading (count_ops is_success ops) /\
    Prom.read reg' "drand_set_randomness_failure_total"
      [Fmt.Sprintf_d chainID; Address_Hex oracleAddress]
      = counter_reading (count_ops is_failure ops).
Proof.
  intros Hf Hp Ho.
  destruct (session_result chainID oracleAddress updaterAddress drandInfo ops reg
              Hf Hp Ho) as (reg' & Hs & Hexec).
  exists reg'. split; [exact Hs|]. unfold counter_reading. split.
  - rewrite (counter_follows _ is_success
      "drand_set_randomness_success_total"
      [Fmt.Sprintf_d chainID; Address_Hex oracleAddress]) with (3 := Hexec).
    + by rewrite read_new by auto.
    + intros [] Hn; try discriminate Hn. by split.
    + intros [] Hn; try discriminate Hn; cbn; intros [= ?].
  - rewrite (counter_follows _ is_failure
      "drand_set_randomness_failure_total"
      [Fmt.Sprintf_d chainID; Address_Hex oracleAddress]) with (3 := Hexec).
    + by rewrite read_new by auto 6.
    + intros [] Hn; try discriminate Hn. by split.
    + intros [] Hn; try discriminate Hn; cbn; intros [= ?].
Qed.

Lemma gauges_hold_last_value_witness :
  exists reg',
    V2.session (H := sample_externals) 1 "0xAb" "0xCd" sample_info sample_ops ∅
      = Ok reg' /\
    Prom.read reg' "drand_round_number_network" ["17f63a"] = Some 0x4059000000000000.
Proof.
  destruct (gauges_hold_last_value (H := sample_externals) 1 "0xAb" "0xCd"
              sample_info sample_ops ∅)
    as (reg' & Hs & Hnet & _);
    [unfold fresh, V2.metric_names; repeat constructor | reflexivity | reflexivity |].
  exists reg'. split; [exact Hs | exact Hnet].
Defined.

Lemma counters_count_calls_witness :
  exists reg',
    V2.session (H := sample_externals) 1 "0xAb" "0xCd" sample_info
      [OpIncSetRandomnessSuccess; OpSetOracleRound 0; OpIncSetRandomnessSuccess] ∅
      = Ok reg' /\
    Prom.read reg' "drand_set_randomness_success_total" ["1"; "0xAb"] = Some 2 /\
    Prom.read reg' "drand_set_randomness_failure_total" ["1"; "0xAb"] = None.
Proof.
  destruct (counters_count_calls (H := sample_externals) 1 "0xAb" "0xCd"
              sample_info
              [OpIncSetRandomnessSuccess; OpSetOracleRound 0; OpIncSetRandomnessSuccess]
              ∅)
    as (reg' & Hs & Hsucc & Hfail);
    [unfold fresh, V2.metric_names; repeat constructor | reflexivity | reflexivity |].
  exists reg'. split; [exact Hs|]. split; [exact Hsucc | exact Hfail].
Defined.

(** ** When [NewMetrics] returns *)

Ltac reg_step :=
  cbn [mbind result_bind rbind fmap result_fmap rmap Prom.fqName];
  repeat (rewrite lookup_insert_eq || rewrite lookup_insert_ne by done).

Section NewMetricsReturns.
Context `{Externals}.
Import Prom.

Lemma V2_NewMetrics_fresh cid oa ua (i : Chain.Info Point) (reg : Registry) m reg' :
  V2.NewMetrics cid oa ua i reg = Ok (m, reg') -> fresh reg V2.metric_names.
Proof.
  unfold V2.NewMetrics, NewGaugeVec, NewCounterVec, MustRegister.
  unfold V2.metric_names. rewrite !fresh_cons.
  reg_step. destruct (reg !! "drand_round_number_network") eqn:H1; [discriminate|].
  reg_step. destruct (reg !! "drand_round_number_oracle") eqn:H2; [discriminate|].
  reg_step.
  destruct (reg !! "drand_set_randomness_success_total") eqn:H3; [discriminate|].
  reg_step.
  destruct (reg !! "drand_set_randomness_failure_total") eqn:H4; [discriminate|].
  reg_step. destruct (reg !! "drand_network_info") eqn:H5; [discriminate|].
  reg_step.
  match goal with
  | |- context [Set_ ?h ?lvs ?val ?r] =>
    destruct (Set_ h lvs val r) as [R|msg] eqn:HS; [|discriminate]
  end.
  reg_step.
  assert (HR : R !! "drand_updater_balance_wei" = reg !! "drand_updater_balance_wei").
  { unfold Set_ in HS.
    rewrite (write_other _ "drand_network_info" _ "drand_updater_balance_wei"
               _ R ltac:(done) HS).
    by repeat (rewrite lookup_insert_ne by done). }
  rewrite HR. destruct (reg !! "drand_updater_balance_wei") eqn:H6; [discriminate|].
  intros _. repeat split; try done. constructor.
Qed.
End NewMetricsReturns.

(** X13. [NewMetrics] returns exactly when none of its six metric names is
    registered yet and the printed public key, the printed period and the
    scheme name are valid UTF-8; in every other case it panics. Collectors
    under other names do not matter. *)
Theorem NewMetrics_returns_iff `{Externals}
    (chainID : Z) (oracleAddress updaterAddress : Address)
    (drandInfo : Chain.Info Point) (reg : Prom.Registry) :
  returns_normally
    (V2.NewMetrics chainID oracleAddress updaterAddress drandInfo reg) <->
  fresh reg V2.metric_names /\ info_printable drandInfo = true.
Proof.
  split.
  - destruct (V2.NewMetrics chainID oracleAddress updaterAddress drandInfo reg)
      as [[m reg']|msg] eqn:Hnew; [intros _ | intros []].
    split; [by apply (V2_NewMetrics_fresh _ _ _ _ _ _ _ Hnew)|].
    by apply V2_NewMetrics_inv in Hnew as (Hp & _).
  - intros [Hf Hp]. by rewrite V2_NewMetrics_ok.
Qed.

(** ** Balances, continued *)

Section Numerals.

Lemma scanDigits_all_digits (s : string) : forall acc count,
  all_digits s = true ->
  exists v, 0 <= v < 10 ^ Z.of_nat (String.length s) /\
    Big.scanDigits s acc count
    = (acc * 10 ^ Z.of_nat (String.length s) + v,
       (count + String.length s)%nat, EmptyString).
Proof.
  induction s as [|c r IH]; intros acc count Hd.
  - exists 0. cbn. split; [lia|]. do 2 f_equal; [lia | lia].
  - cbn [all_digits] in Hd. apply andb_prop in Hd as [Hc Hr].
    cbn [Big.scanDigits]. rewrite Hc.
    destruct (IH (acc * 10 + (Z.of_N (N_of_ascii c) - 48)) (S count) Hr)
      as (v & [Hv0 Hv1] & ->).
    unfold Big.is_digit in Hc. apply andb_prop in Hc as [Hlo Hhi].
    apply Z.leb_le in Hlo. apply Z.leb_le in Hhi.
    set (d := Z.of_N (N_of_ascii c) - 48) in *.
    cbn [String.length]. rewrite Nat2Z.inj_succ, Z.pow_succ_r by lia.
    set (p := 10 ^ Z.of_nat (String.length r)) in *.
    assert (Hp : 0 < p) by (apply Z.pow_pos_nonneg; lia).
    exists (d * p + v). split; [nia|].
    do 2 f_equal; [lia | lia].
Qed.

Lemma bitLen_bound (n len : Z) :
  0 < n -> 0 <= len -> n < 10 ^ len -> 1 <= Big.bitLen n <= 4 * len.
Proof.
  intros Hn Hlen Hlt. unfold Big.bitLen.
  pose proof (Z.log2_nonneg n) as H0.
  assert (H16 : 10 ^ len <= 2 ^ (4 * len)).
  { rewrite Z.pow_mul_r by lia. apply Z.pow_le_mono_l. lia. }
  assert (Hlog : Z.log2 n < 4 * len).
  { apply Z.log2_lt_pow2; lia. }
  lia.
Qed.

Lemma digit_not_sign (c : ascii) (r : string) :
  Big.is_digit c = true ->
  Big.scanSign (String c r) = (false, String c r) /\
  String.eqb (String c r) "Inf" = false /\ String.eqb (String c r) "inf" = false /\
  String.eqb (String c r) "+Inf" = false /\ String.eqb (String c r) "+inf" = false /\
  String.eqb (String c r) "-Inf" = false /\ String.eqb (String c r) "-inf" = false.
Proof.
  destruct c as [[] [] [] [] [] [] [] []]; intros Hd; try discriminate Hd;
    repeat split; reflexivity.
Qed.

Lemma SetString_decimal (s : string) :
  decimal_numeral s = true ->
  4 * Z.of_nat (String.length s) <= Big.MaxExp ->
  exists f, Big.SetString s = Big.Returned (Some f) /\ Big.neg f = false.
Proof.
  destruct s as [|c r]; [discriminate|]. cbn [decimal_numeral]. intros Hd Hlen.
  pose proof Hd as Hd'. cbn [all_digits] in Hd'. apply andb_prop in Hd' as [Hc _].
  destruct (digit_not_sign c r Hc) as (Hsign & E1 & E2 & E3 & E4 & E5 & E6).
  unfold Big.SetString, Big.Parse. rewrite E1, E2, E3, E4, E5, E6. cbn [orb].
  unfold Big.scan. rewrite Hsign.
  destruct (scanDigits_all_digits (String c r) 0 0%nat Hd) as (v & [Hv0 Hv1] & ->).
  cbn [Nat.add]. rewrite Z.mul_0_l, Z.add_0_l.
  replace (String.length (String c r) =? 0)%nat with false by reflexivity.
  destruct (v =? 0) eqn:Hz; [by eexists|].
  apply Z.eqb_neq in Hz.
  destruct (bitLen_bound v (Z.of_nat (String.length (String c r))))
    as [Hb1 Hb2]; [lia | lia | exact Hv1 |].
  replace ((Big.MinExp <=? Big.bitLen v) && (Big.bitLen v <=? Big.MaxExp)) with true.
  - destruct (Big.round 64 v (Big.bitLen v)) as [m e].
    destruct (Big.MaxExp <? e); by eexists.
  - symmetry. apply andb_true_intro. split; apply Z.leb_le; unfold Big.MinExp; lia.
Qed.
End Numerals.

(** X14. Through a [Metrics] whose balance gauge is registered with its
    three labels and whose addresses print as UTF-8, [SetUpdaterBalance]
    returns exactly when [SetString] accepts the balance. It then stores the
    [float64] of the parsed number in the child labelled with the chain id,
    the oracle address and the updater address, and every other child of
    every collector reads as before. *)
Theorem SetUpdaterBalance_returns_iff `{Externals}
    (m : V2.Metrics) (reg : Prom.Registry) (v : Prom.Vec)
    (wei : string) (r : result Prom.Registry) :
  reg !! V2.updaterBalance m = Some v ->
  List.length (Prom.variableLabels v) = 3%nat ->
  GoStrings.ValidString (Address_Hex (V2.oracleAddress m)) = true ->
  GoStrings.ValidString (Address_Hex (V2.updaterAddress m)) = true ->
  V2.SetUpdaterBalance m wei reg = Some r ->
  (returns_normally r <-> exists f, Big.SetString wei = Big.Returned (Some f)) /\
  (forall f, Big.SetString wei = Big.Returned (Some f) ->
     exists reg',
       r = Ok reg' /\
       Prom.read reg' (V2.updaterBalance m)
         [Fmt.Sprintf_d (V2.chainID m); Address_Hex (V2.oracleAddress m);
          Address_Hex (V2.updaterAddress m)] = Some (Big.Float64_of f) /\
       forall name lvs,
         (name, lvs) <>
           (V2.updaterBalance m,
            [Fmt.Sprintf_d (V2.chainID m); Address_Hex (V2.oracleAddress m);
             Address_Hex (V2.updaterAddress m)]) ->
         Prom.read reg' name lvs = Prom.read reg name lvs).
Proof.
  intros Hv Hlen Ho Hu. unfold V2.SetUpdaterBalance.
  assert (Hlabels : Prom.validateLabelValues
            [Fmt.Sprintf_d (V2.chainID m); Address_Hex (V2.oracleAddress m);
             Address_Hex (V2.updaterAddress m)]
            (List.length (Prom.variableLabels v)) = true).
  { rewrite Hlen. unfold Prom.validateLabelValues. cbn [List.length Nat.eqb forallb].
    by rewrite ValidString_Sprintf_d, Ho, Hu. }
  destruct (Big.SetString wei) as [[f|]|]; [| |discriminate].
  - cbn [Big.Float64 mbind result_bind rbind].
    rewrite (Set_ok _ _ _ reg v Hv Hlabels). intros [= <-]. split.
    + split; [by eexists | done].
    + intros f' [= <-]. eexists. split; [reflexivity|]. split.
      * apply read_write_same.
      * intros name lvs Hne. by apply read_write_other.
  - cbn [Big.Float64 mbind result_bind rbind]. intros [= <-]. split.
    + split; [intros [] | intros [f Hf]; discriminate Hf].
    + intros f Hf. discriminate Hf.
Qed.

Lemma SetString_42 :
  Big.SetString "42"
  = Big.Returned (Some (Big.mkFloat 64 Big.finite false (42 * 2 ^ 58) 6)).
Proof. vm_compute. reflexivity. Qed.

Lemma SetUpdaterBalance_returns_iff_witness :
  exists reg',
    V2.SetUpdaterBalance sample_metrics "42" sample_registry = Some (Ok reg') /\
    Prom.read reg' "drand_updater_balance_wei" ["1"; "0xAb"; "0xCd"]
      = Some 0x4045000000000000.
Proof.
  destruct (SetUpdaterBalance_returns (H := sample_externals) 1 "0xAb" "0xCd"
              sample_info "42" _ sample_registry SetString_42 eq_refl eq_refl
              (well_registered_new (H := sample_externals) sample_info ∅))
    as (reg0 & Hset & _).
  destruct (SetUpdaterBalance_returns_iff (H := sample_externals)
              sample_metrics sample_registry Collectors.updater_balance "42"
              (Ok reg0) (lookup_insert_eq _ _ _) eq_refl eq_refl eq_refl Hset)
    as [_ Hstore].
  destruct (Hstore _ SetString_42) as (reg' & Hr & Hread & _).
  exists reg'. injection Hr as <-. split; [exact Hset | exact Hread].
Defined.

(** X15. Every balance written as a non-empty string of decimal digits, of
    a length whose fourfold does not exceed [big.MaxExp], is accepted: for
    such a string [SetUpdaterBalance] returns, whatever the amount. *)
Theorem SetUpdaterBalance_accepts_decimal `{Externals}
    (m : V2.Metrics) (reg : Prom.Registry) (v : Prom.Vec) (wei : string) :
  reg !! V2.updaterBalance m = Some v ->
  List.length (Prom.variableLabels v) = 3%nat ->
  GoStrings.ValidString (Address_Hex (V2.oracleAddress m)) = true ->
  GoStrings.ValidString (Address_Hex (V2.updaterAddress m)) = true ->
  decimal_numeral wei = true ->
  4 * Z.of_nat (String.length wei) <= Big.MaxExp ->
  exists f reg',
    Big.SetString wei = Big.Returned (Some f) /\ Big.neg f = false /\
    V2.SetUpdaterBalance m wei reg = Some (Ok reg') /\
    Prom.read reg' (V2.updaterBalance m)
      [Fmt.Sprintf_d (V2.chainID m); Address_Hex (V2.oracleAddress m);
       Address_Hex (V2.updaterAddress m)] = Some (Big.Float64_of f).
Proof.
  intros Hv Hlen Ho Hu Hd Hl.
  destruct (SetString_decimal wei Hd Hl) as (f & Hf & Hneg).
  unfold V2.SetUpdaterBalance. rewrite Hf.
  cbn [Big.Float64 mbind result_bind rbind].
  erewrite Set_ok; [ | exact Hv | ].
  - exists f. eexists. split; [reflexivity|]. split; [exact Hneg|].
    split; [reflexivity|]. apply read_write_same.
  - rewrite Hlen. unfold Prom.validateLabelValues. cbn [List.length Nat.eqb forallb].
    by rewrite ValidString_Sprintf_d, Ho, Hu.
Qed.

Lemma SetUpdaterBalance_accepts_decimal_witness :
  exists reg',
    V2.SetUpdaterBalance sample_metrics "31415926535897932384626433832795"
      sample_registry = Some (Ok reg').
Proof.
  destruct (SetUpdaterBalance_accepts_decimal (H := sample_externals)
              sample_metrics sample_registry Collectors.updater_balance
              "31415926535897932384626433832795")
    as (f & reg' & _ & _ & Hset & _);
    [apply lookup_insert_eq | reflexivity | reflexivity | reflexivity
    | reflexivity | vm_compute; discriminate |].
  exists reg'. exact Hset.
Defined.

(** ** Balances that a [float64] holds exactly *)

Section Exactness.

Lemma land_shiftl_small (x b k : Z) :
  0 <= k -> 0 <= b < 2 ^ k -> Z.land (x * 2 ^ k) b = 0.
Proof.
  intros Hk Hb. apply Z.bits_inj'. intros i Hi.
  rewrite Z.land_spec, Z.bits_0.
  destruct (Z.lt_ge_cases i k) as [Hlt|Hge].
  - by rewrite Z.mul_pow2_bits_low by lia.
  - destruct (Z.eq_dec b 0) as [->|Hb0]; [by rewrite Z.bits_0, andb_false_r|].
    assert (Z.log2 b < k) by (apply Z.log2_lt_pow2; lia).
    rewrite (Z.bits_above_log2 b i) by lia. apply andb_false_r.
Qed.

Lemma lor_shiftl_add (x b k : Z) :
  0 <= k -> 0 <= b < 2 ^ k -> Z.lor (Z.shiftl x k) b = x * 2 ^ k + b.
Proof.
  intros Hk Hb. rewrite Z.shiftl_mul_pow2 by lia.
  pose proof (land_shiftl_small x b k Hk Hb) as Hland.
  rewrite <- Z.lxor_lor by exact Hland.
  symmetry. by apply Z.add_nocarry_lxor.
Qed.

(* decode *)
Lemma to_Q_normal (x b : Z) :
  1 <= x <= 2046 -> 0 <= b < 2 ^ 52 ->
  F64.to_Q (x * 2 ^ 52 + b)
  = Some (Qred (inject_Z (b + 2 ^ 52) * Qpower 2 (x - 1075))).
Proof.
  intros Hx Hb. unfold F64.to_Q.
  change F64.mbits with 52. change F64.bias with 1023.
  assert (Hp : 0 < 2 ^ 52) by (apply Z.pow_pos_nonneg; lia).
  assert (Hs : Z.testbit (x * 2 ^ 52 + b) 63 = false).
  { apply Z.bits_above_log2; [lia|].
    apply Z.log2_lt_pow2; [lia|]. change (2 ^ 63) with (2048 * 2 ^ 52). lia. }
  rewrite Hs.
  assert (Hshift : Z.shiftr (x * 2 ^ 52 + b) 52 = x).
  { rewrite Z.shiftr_div_pow2 by lia. rewrite Z.div_add_l by lia.
    rewrite Z.div_small by lia. lia. }
  rewrite Hshift. change 2047 with (Z.ones 11). rewrite Z.land_ones by lia.
  rewrite (Z.mod_small x) by (change (2 ^ 11) with 2048; lia).
  rewrite Z.land_ones by lia.
  rewrite Z.add_comm, Z.mod_add by lia. rewrite (Z.mod_small b) by lia.
  replace (x =? Z.ones 11) with false
    by (symmetry; apply Z.eqb_neq; change (Z.ones 11) with 2047; lia).
  replace (x =? 0) with false by (symmetry; apply Z.eqb_neq; lia).
  rewrite Z.shiftl_mul_pow2 by lia. rewrite Z.mul_1_l.
  replace (x - 1023 - 52) with (x - 1075) by lia. reflexivity.
Qed.

Lemma Qred_scaled (n k : Z) :
  0 <= k -> Qred (inject_Z (n * 2 ^ k) * Qpower 2 (- k)) = inject_Z n.
Proof.
  intros Hk.
  assert (Heq : (inject_Z (n * 2 ^ k) * Qpower 2 (- k) == inject_Z n)%Q).
  { rewrite Qpower_opp. rewrite inject_Z_mult.
    rewrite (Zpower_Qpower 2 k) by lia.
    assert (Hnz : ~ (inject_Z 2 ^ k == 0)%Q).
    { apply Qpower_not_0. discriminate. }
    change (inject_Z 2) with 2%Q in *.
    field. exact Hnz. }
  rewrite (Qred_complete _ _ Heq). apply Qcanon.Qred_identity.
  cbn. apply Z.gcd_1_r.
Qed.

Lemma bitLen_spec (n : Z) :
  0 < n -> 1 <= Big.bitLen n /\ 2 ^ (Big.bitLen n - 1) <= n < 2 ^ Big.bitLen n.
Proof.
  intros Hn. unfold Big.bitLen. pose proof (Z.log2_spec n Hn) as Hs.
  pose proof (Z.log2_nonneg n).
  replace (Z.log2 n + 1 - 1) with (Z.log2 n) by lia.
  replace (Z.log2 n + 1) with (Z.succ (Z.log2 n)) by lia. lia.
Qed.

Lemma bitLen_small (n : Z) : 0 < n < 2 ^ 53 -> 1 <= Big.bitLen n <= 53.
Proof.
  intros [Hn Hlt]. destruct (bitLen_spec n Hn) as [H1 _]. split; [exact H1|].
  unfold Big.bitLen. assert (Z.log2 n < 53) by (apply Z.log2_lt_pow2; lia). lia.
Qed.

Lemma round_fits (p n e : Z) :
  0 < n -> Big.bitLen n <= p -> Big.round p n e = (Z.shiftl n (64 - Big.bitLen n), e).
Proof.
  intros Hn Hp. unfold Big.round.
  by replace (Big.bitLen n <=? p) with true by (symmetry; apply Z.leb_le; lia).
Qed.

Lemma Float64_of_small (n : Z) :
  0 < n < 2 ^ 53 ->
  Big.Float64_of
    (Big.mkFloat 64 Big.finite false (Z.shiftl n (64 - Big.bitLen n)) (Big.bitLen n))
  = (Big.bitLen n + 1022) * 2 ^ 52 + (n * 2 ^ (53 - Big.bitLen n) - 2 ^ 52).
Proof.
  intros Hn. destruct (bitLen_small n Hn) as [HL1 HL53].
  destruct (bitLen_spec n (proj1 Hn)) as [_ [Hlo Hhi]].
  set (L := Big.bitLen n) in *.
  set (M := Z.shiftl n (64 - L)).
  assert (HM : M = n * 2 ^ (64 - L)) by (unfold M; apply Z.shiftl_mul_pow2; lia).
  assert (HbM : Big.bitLen M = 64).
  { unfold Big.bitLen. rewrite HM, Z.log2_mul_pow2 by lia.
    fold (Big.bitLen n). unfold Big.bitLen in L. subst L. lia. }
  set (q := n * 2 ^ (53 - L)).
  assert (Hq : Z.shiftr M 11 = q).
  { unfold M, q. rewrite Z.shiftr_shiftl_l by lia.
    rewrite Z.shiftl_mul_pow2 by lia. f_equal. f_equal. lia. }
  assert (Hqr : 2 ^ 52 <= q < 2 ^ 53).
  { unfold q. 
    assert (E1 : 2 ^ 52 = 2 ^ (L - 1) * 2 ^ (53 - L))
      by (rewrite <- Z.pow_add_r by lia; f_equal; lia).
    assert (E2 : 2 ^ 53 = 2 ^ L * 2 ^ (53 - L))
      by (rewrite <- Z.pow_add_r by lia; f_equal; lia).
    assert (0 < 2 ^ (53 - L)) by (apply Z.pow_pos_nonneg; lia).
    rewrite E1, E2. nia. }
  assert (Hround : Big.round 53 M L = (Z.shiftl q 11, L)).
  { unfold Big.round. rewrite HbM.
    change (64 <=? 53) with false. cbv beta iota zeta.
    change (64 - 53 - 1) with 10. change (10 + 1) with 11.
    assert (Hbit : Z.testbit M 10 = false)
      by (unfold M; apply Z.shiftl_spec_low; lia).
    rewrite Hbit. cbn [andb]. rewrite Hq.
    replace (q =? Z.shiftl 1 53) with false; [reflexivity|].
    symmetry. apply Z.eqb_neq. change (Z.shiftl 1 53) with (2 ^ 53). lia. }
  unfold Big.Float64_of. cbn [Big.fform Big.exp Big.mant Big.neg].
  change F64.emin with (-1022). change F64.emax with 1023.
  change F64.mbits with 52. change F64.fbits with 64. change F64.ebits with 11.
  change F64.bias with 1023. change (52 + 1) with 53.
  replace (L - 1 <? -1022) with false by (symmetry; apply Z.ltb_ge; lia).
  fold M. rewrite Hround.
  replace (L - 1 <? -1022) with false by (symmetry; apply Z.ltb_ge; lia).
  replace ((Big.MaxExp <? L) || (1023 <? L - 1)) with false.
  2:{ symmetry. apply orb_false_intro; apply Z.ltb_ge; unfold Big.MaxExp; lia. }
  change (F64.signbit false) with 0. rewrite Z.lor_0_l.
  rewrite Z.shiftr_shiftl_l by lia. change (11 - 11) with 0. rewrite Z.shiftl_0_r.
  rewrite Z.land_ones by lia.
  assert (Hmod : q mod 2 ^ 52 = q - 2 ^ 52).
  { symmetry. apply (Z.mod_unique_pos q (2 ^ 52) 1); lia. }
  rewrite Hmod. rewrite lor_shiftl_add by lia. f_equal. f_equal. lia.
Qed.

Lemma scanDigits_value (s : string) : forall acc count,
  all_digits s = true ->
  Big.scanDigits s acc count
  = (decimal_value_from s acc, (count + String.length s)%nat, EmptyString).
Proof.
  induction s as [|c r IH]; intros acc count Hd.
  - cbn. by rewrite Nat.add_0_r.
  - cbn [all_digits] in Hd. apply andb_prop in Hd as [Hc Hr].
    cbn [Big.scanDigits decimal_value_from String.length]. rewrite Hc.
    rewrite (IH _ _ Hr). do 2 f_equal. lia.
Qed.

Lemma decimal_value_from_nonneg (s : string) : forall acc,
  all_digits s = true -> 0 <= acc -> 0 <= decimal_value_from s acc.
Proof.
  induction s as [|c r IH]; intros acc Hd Hacc; [exact Hacc|].
  cbn [all_digits] in Hd. apply andb_prop in Hd as [Hc Hr].
  cbn [decimal_value_from]. apply IH; [exact Hr|].
  unfold Big.is_digit in Hc. apply andb_prop in Hc as [Hlo _].
  apply Z.leb_le in Hlo. lia.
Qed.

Lemma SetString_small (s : string) :
  decimal_numeral s = true -> decimal_value s < 2 ^ 53 ->
  Big.SetString s =
    Big.Returned (Some
      (if decimal_value s =? 0 then Big.mkFloat 64 Big.fzero false 0 0
       else Big.mkFloat 64 Big.finite false
              (Z.shiftl (decimal_value s) (64 - Big.bitLen (decimal_value s)))
              (Big.bitLen (decimal_value s)))).
Proof.
  destruct s as [|c r]; [discriminate|]. cbn [decimal_numeral]. intros Hd Hlt.
  pose proof Hd as Hd'. cbn [all_digits] in Hd'. apply andb_prop in Hd' as [Hc _].
  destruct (digit_not_sign c r Hc) as (Hsign & E1 & E2 & E3 & E4 & E5 & E6).
  pose proof (decimal_value_from_nonneg (String c r) 0 Hd ltac:(lia)) as Hnn.
  fold (decimal_value (String c r)) in Hnn.
  unfold Big.SetString, Big.Parse. rewrite E1, E2, E3, E4, E5, E6. cbn [orb].
  unfold Big.scan. rewrite Hsign.
  rewrite (scanDigits_value (String c r) 0 0%nat Hd).
  fold (decimal_value (String c r)).
  set (n := decimal_value (String c r)) in *.
  replace (0 + String.length (String c r) =? 0)%nat with false by reflexivity.
  destruct (n =? 0) eqn:Hz; [reflexivity|].
  apply Z.eqb_neq in Hz.
  destruct (bitLen_small n ltac:(lia)) as [HL1 HL53].
  replace ((Big.MinExp <=? Big.bitLen n) && (Big.bitLen n <=? Big.MaxExp)) with true.
  2:{ symmetry. apply andb_true_intro.
      split; apply Z.leb_le; unfold Big.MinExp, Big.MaxExp; lia. }
  rewrite round_fits by lia.
  by replace (Big.MaxExp <? Big.bitLen n) with false
    by (symmetry; apply Z.ltb_ge; unfold Big.MaxExp; lia).
Qed.

Lemma Float64_exact (s : string) (f : Big.Float) :
  decimal_numeral s = true -> decimal_value s < 2 ^ 53 ->
  Big.SetString s = Big.Returned (Some f) ->
  F64.to_Q (Big.Float64_of f) = Some (inject_Z (decimal_value s)).
Proof.
  intros Hd Hlt. rewrite (SetString_small s Hd Hlt). intros [= <-].
  assert (Hnn : 0 <= decimal_value s).
  { destruct s; [discriminate|].
    by apply (decimal_value_from_nonneg _ 0 Hd). }
  set (n := decimal_value s) in *.
  destruct (n =? 0) eqn:Hz.
  - apply Z.eqb_eq in Hz. rewrite Hz. reflexivity.
  - apply Z.eqb_neq in Hz.
    destruct (bitLen_small n ltac:(lia)) as [HL1 HL53].
    destruct (bitLen_spec n ltac:(lia)) as [_ [Hlo Hhi]].
    rewrite Float64_of_small by lia.
    set (L := Big.bitLen n) in *.
    assert (Hq : 2 ^ 52 <= n * 2 ^ (53 - L) < 2 ^ 53).
    { assert (E1 : 2 ^ 52 = 2 ^ (L - 1) * 2 ^ (53 - L))
        by (rewrite <- Z.pow_add_r by lia; f_equal; lia).
      assert (E2 : 2 ^ 53 = 2 ^ L * 2 ^ (53 - L))
        by (rewrite <- Z.pow_add_r by lia; f_equal; lia).
      assert (0 < 2 ^ (53 - L)) by (apply Z.pow_pos_nonneg; lia).
      rewrite E1, E2. nia. }
    rewrite to_Q_normal by lia.
    replace (n * 2 ^ (53 - L) - 2 ^ 52 + 2 ^ 52) with (n * 2 ^ (53 - L)) by lia.
    replace (L + 1022 - 1075) with (- (53 - L)) by lia.
    by rewrite Qred_scaled by lia.
Qed.
End Exactness.

(** X16. A balance below 2^53 wei, written in decimal digits, is recorded
    without rounding: after [SetUpdaterBalance] the child of the balance
    gauge holds a [float64] whose value is exactly the number written. *)
Theorem balance_exact_below_2_53 `{Externals}
    (m : V2.Metrics) (reg : Prom.Registry) (v : Prom.Vec) (wei : string) :
  reg !! V2.updaterBalance m = Some v ->
  List.length (Prom.variableLabels v) = 3%nat ->
  GoStrings.ValidString (Address_Hex (V2.oracleAddress m)) = true ->
  GoStrings.ValidString (Address_Hex (V2.updaterAddress m)) = true ->
  decimal_numeral wei = true ->
  decimal_value wei < 2 ^ 53 ->
  exists reg' bits,
    V2.SetUpdaterBalance m wei reg = Some (Ok reg') /\
    Prom.read reg' (V2.updaterBalance m)
      [Fmt.Sprintf_d (V2.chainID m); Address_Hex (V2.oracleAddress m);
       Address_Hex (V2.updaterAddress m)] = Some bits /\
    F64.to_Q bits = Some (inject_Z (decimal_value wei)).
Proof.
  intros Hv Hlen Ho Hu Hd Hlt.
  pose proof (SetString_small wei Hd Hlt) as Hs.
  unfold V2.SetUpdaterBalance. rewrite Hs.
  cbn [Big.Float64 mbind result_bind rbind].
  erewrite Set_ok; [ | exact Hv | ].
  - eexists _, _. split; [reflexivity|]. split; [apply read_write_same|].
    by apply (Float64_exact wei).
  - rewrite Hlen. unfold Prom.validateLabelValues. cbn [List.length Nat.eqb forallb].
    by rewrite ValidString_Sprintf_d, Ho, Hu.
Qed.

Lemma balance_exact_below_2_53_witness :
  exists reg' bits,
    V2.SetUpdaterBalance sample_metrics "9007199254740991" sample_registry
      = Some (Ok reg') /\
    Prom.read reg' "drand_updater_balance_wei" ["1"; "0xAb"; "0xCd"] = Some bits /\
    F64.to_Q bits = Some (9007199254740991 # 1)%Q.
Proof.
  exact (balance_exact_below_2_53 (H := sample_externals)
           sample_metrics sample_registry Collectors.updater_balance
           "9007199254740991" (lookup_insert_eq _ _ _) eq_refl eq_refl eq_refl
           eq_refl eq_refl).
Defined.
